(** * Backend Dev Helper (app.py): request dispatch pipeline and history model

    A shallow embedding of [ApiTesterApp] from [src/app.py]: the submit
    handler, the worker loop, the response poll loop and the history
    handlers, together with the Python primitives they call.

    The handlers run on the Tk main thread and are single steps of a
    transition system.  A thread running [_worker_loop] moves at its loop
    test, at [get()] and at the end of its exchange, in any interleaving
    with the handlers and with other such threads.  What
    [requests.request] returns or raises, the measured time, the listbox
    selection and the answer to a dialog are inputs of the steps. *)

From Stdlib Require Import ZArith NArith List Ascii String DecimalString Lia.
From stdpp Require Import gmap list.

(** A Python [str] is a sequence of Unicode code points. *)
Abbreviation str := (list N).

(** Objects live in a heap and are named by their address: the history and
    both queues hold references to the same [RequestHistoryItem]s. *)
Abbreviation ref := nat.

(** ** Python string primitives used by the program *)

Module Py.

(** A string literal of the source, one code point per character. *)
Definition lit (s : string) : str := map N_of_ascii (list_ascii_of_string s).

Definition in_range (lo hi c : N) : bool := ((lo <=? c) && (c <=? hi))%N.

(** [str.isspace] on one code point: the characters [str.strip()] removes. *)
Definition isspace (c : N) : bool :=
  in_range 9 13 c || in_range 28 32 c || (c =? 133)%N || (c =? 160)%N
  || (c =? 5760)%N || in_range 8192 8202 c || (c =? 8232)%N || (c =? 8233)%N
  || (c =? 8239)%N || (c =? 8287)%N || (c =? 12288)%N.

(** The line boundaries of [str.splitlines()]. *)
Definition is_linebreak (c : N) : bool :=
  in_range 10 13 c || in_range 28 30 c || (c =? 133)%N
  || (c =? 8232)%N || (c =? 8233)%N.

Fixpoint lstrip (s : str) : str :=
  match s with
  | c :: t => if isspace c then lstrip t else s
  | [] => []
  end.

Definition rstrip (s : str) : str := rev (lstrip (rev s)).

(** [s.strip()] *)
Definition strip (s : str) : str := rstrip (lstrip s).

(** [s.splitlines()]: [cur] is the current line, reversed.  A carriage return
    followed by a line feed is one boundary; a final boundary opens no empty
    line. *)
Fixpoint splitlines_from (cur : str) (s : str) : list str :=
  match s with
  | [] => match cur with [] => [] | _ => [rev cur] end
  | c :: t =>
      if (c =? 13)%N then
        match t with
        | c' :: t' =>
            if (c' =? 10)%N then rev cur :: splitlines_from [] t'
            else rev cur :: splitlines_from [] t
        | [] => rev cur :: splitlines_from [] t
        end
      else if is_linebreak c then rev cur :: splitlines_from [] t
      else splitlines_from (c :: cur) t
  end.

Definition splitlines (s : str) : list str := splitlines_from [] s.

(** [sub in s] for a one-character [sub]. *)
Definition contains (c : N) (s : str) : bool := existsb (N.eqb c) s.

(** The two parts of [s.split(sep, 1)] for a one-character [sep] that occurs
    in [s]: the text before the first [sep] and the text after it. *)
Fixpoint split1 (sep : N) (s : str) : str * str :=
  match s with
  | [] => ([], [])
  | c :: t =>
      if (c =? sep)%N then ([], t)
      else let '(k, v) := split1 sep t in (c :: k, v)
  end.

(** [s.replace(a, b)] for one-character [a] and [b]. *)
Definition replace (a b : N) (s : str) : str :=
  map (fun c => if (c =? a)%N then b else c) s.

(** [s[:n]] *)
Definition slice_to (n : nat) (s : str) : str := take n s.

(** [s.upper()] on ASCII text. *)
Definition upper (s : str) : str :=
  map (fun c => if in_range 97 122 c then (c - 32)%N else c) s.

(** [str(z)] for an [int]. *)
Definition str_of_int (z : Z) : str := lit (NilEmpty.string_of_int (Z.to_int z)).

(** [sep.join(parts)] *)
Fixpoint join (sep : str) (parts : list str) : str :=
  match parts with
  | [] => []
  | [p] => p
  | p :: ps => p ++ sep ++ join sep ps
  end.

Definition LF : N := 10.
Definition SPACE : N := 32.
Definition COLON : N := 58.

End Py.

(** ** Floating point

    [time.perf_counter()] differences and JSON numbers with a fraction are
    Python floats.  Their arithmetic and printing are left to an interface;
    the program only stores, compares and prints them. *)

Class PyFloat := {
  pyfloat : Type;
  pyfloat_eq_dec :: EqDecision pyfloat;
  (** [f"{x:.2f}"] *)
  format_2f : pyfloat -> str;
  (** [f"{x * 1000:.0f}"] *)
  format_ms : pyfloat -> str;
  (** [float(s)], the [parse_float] and [parse_constant] of [json] *)
  float_of_literal : str -> pyfloat;
  (** [floatstr] of [json.encoder]: [repr], or NaN, Infinity, -Infinity *)
  floatstr : pyfloat -> str
}.

(** ** The [json] module: [json.loads] and [json.dumps(_, indent=2)] *)

Module Json.
Import Py.

Section Codec.
Context `{PyFloat}.

#[local] Set Warnings "-register-all".

(** What [json.loads] builds: [None], [bool], [int], [float], [str], [list]
    and [dict] (in insertion order, keys unique). *)
Inductive value :=
  | JNull
  | JBool (b : bool)
  | JInt (z : Z)
  | JFloat (x : pyfloat)
  | JStr (s : str)
  | JList (l : list value)
  | JDict (d : list (str * value)).

(** *** Decoding *)

(** [WHITESPACE = [ \t\n\r]*] *)
Definition is_ws (c : N) : bool :=
  (c =? 32)%N || (c =? 9)%N || (c =? 10)%N || (c =? 13)%N.

Fixpoint skip_ws (s : str) : str :=
  match s with
  | c :: t => if is_ws c then skip_ws t else s
  | [] => []
  end.

Definition is_digit (c : N) : bool := in_range 48 57 c.

Fixpoint span_digits (s : str) : str * str :=
  match s with
  | c :: t => if is_digit c then let '(ds, r) := span_digits t in (c :: ds, r)
              else ([], s)
  | [] => ([], [])
  end.

Definition hex_digit (c : N) : option N :=
  if in_range 48 57 c then Some (c - 48)%N
  else if in_range 97 102 c then Some (c - 87)%N
  else if in_range 65 70 c then Some (c - 55)%N
  else None.

(** The four hexadecimal digits after a backslash-u escape. *)
Definition decode_uXXXX (a b c d : N) : option N :=
  match hex_digit a, hex_digit b, hex_digit c, hex_digit d with
  | Some x, Some y, Some z, Some w => Some (((x * 16 + y) * 16 + z) * 16 + w)%N
  | _, _, _, _ => None
  end.

(** [BACKSLASH]: the one-character escapes. *)
Definition backslash (c : N) : option N :=
  if (c =? 34)%N then Some 34%N
  else if (c =? 92)%N then Some 92%N
  else if (c =? 47)%N then Some 47%N
  else if (c =? 98)%N then Some 8%N
  else if (c =? 102)%N then Some 12%N
  else if (c =? 110)%N then Some 10%N
  else if (c =? 114)%N then Some 13%N
  else if (c =? 116)%N then Some 9%N
  else None.

(** [scanstring] in strict mode, entered after the opening quote: the decoded
    text (accumulated reversed in [acc]) and the input after the closing
    quote. *)
Fixpoint scanstring (s : str) (acc : str) : option (str * str) :=
  match s with
  | [] => None
  | c :: t =>
      if (c =? 34)%N then Some (rev acc, t)
      else if (c <? 32)%N then None
      else if negb (c =? 92)%N then scanstring t (c :: acc)
      else
        match t with
        | [] => None
        | e :: t1 =>
            if negb (e =? 117)%N then
              match backslash e with
              | Some ch => scanstring t1 (ch :: acc)
              | None => None
              end
            else
              match t1 with
              | a :: b :: c1 :: d :: t2 =>
                  match decode_uXXXX a b c1 d with
                  | None => None
                  | Some uni =>
                      if in_range 55296 56319 uni then
                        match t2 with
                        | b1 :: u1 :: a2 :: b2 :: c2 :: d2 :: t3 =>
                            if (b1 =? 92)%N && (u1 =? 117)%N then
                              match decode_uXXXX a2 b2 c2 d2 with
                              | None => None
                              | Some uni2 =>
                                  if in_range 56320 57343 uni2 then
                                    scanstring t3
                                      ((65536 + (N.lor (N.shiftl (uni - 55296) 10)
                                                       (uni2 - 56320)))%N :: acc)
                                  else scanstring t2 (uni :: acc)
                              end
                            else scanstring t2 (uni :: acc)
                        | _ => scanstring t2 (uni :: acc)
                        end
                      else scanstring t2 (uni :: acc)
                  end
              | _ => None
              end
        end
  end.

(** The parts of [NUMBER_RE]: the digits of the integer part,
    [0|[1-9][0-9]*], with the input after them. *)
Definition match_int_digits (s : str) : option (str * str) :=
  match s with
  | c :: t =>
      if (c =? 48)%N then Some ([c], t)
      else if in_range 49 57 c then
        let '(ds, r) := span_digits t in Some (c :: ds, r)
      else None
  | [] => None
  end.

(** The optional fraction, a dot and at least one digit (empty when absent). *)
Definition match_frac (s : str) : str * str :=
  match s with
  | c :: t =>
      if (c =? 46)%N then
        match span_digits t with
        | ([], _) => ([], s)
        | (ds, r) => (c :: ds, r)
        end
      else ([], s)
  | [] => ([], s)
  end.

(** The optional exponent: e or E, an optional sign, at least one digit. *)
Definition match_exp (s : str) : str * str :=
  match s with
  | c :: t =>
      if (c =? 101)%N || (c =? 69)%N then
        let '(sg, t') :=
          match t with
          | c' :: t'' => if (c' =? 43)%N || (c' =? 45)%N then ([c'], t'')
                         else ([], t)
          | [] => ([], t)
          end in
        match span_digits t' with
        | ([], _) => ([], s)
        | (ds, r) => (c :: sg ++ ds, r)
        end
      else ([], s)
  | [] => ([], s)
  end.

(** [NUMBER_RE]: the integer part, the fraction and the exponent (empty when
    absent) and the input after the number. *)
Definition match_number (s : str) : option (str * str * str * str) :=
  let '(sign, s1) :=
    match s with
    | c :: t => if (c =? 45)%N then ([c], t) else ([], s)
    | [] => ([], s)
    end in
  match match_int_digits s1 with
  | None => None
  | Some (digits, r) =>
      let '(frac, r1) := match_frac r in
      let '(exp, r2) := match_exp r1 in
      Some (sign ++ digits, frac, exp, r2)
  end.

(** [int(s)] on a decimal literal with an optional minus sign. *)
Definition int_of_literal (s : str) : Z :=
  let digits (ds : str) : Z :=
    fold_left (fun acc c => (acc * 10 + Z.of_N (c - 48))%Z) ds 0%Z in
  match s with
  | c :: t => if (c =? 45)%N then (- digits t)%Z else digits s
  | [] => 0%Z
  end.

(** [s[:len(p)] == p], with the rest of [s]. *)
Fixpoint strip_prefix (p s : str) : option str :=
  match p, s with
  | [], _ => Some s
  | a :: p', b :: s' => if (a =? b)%N then strip_prefix p' s' else None
  | _ :: _, [] => None
  end.

(** [d[k] = v] on a dict kept in insertion order. *)
Fixpoint dict_set (k : str) (v : value) (d : list (str * value)) : list (str * value) :=
  match d with
  | [] => [(k, v)]
  | (k', v') :: d' =>
      if decide (k' = k) then (k', v) :: d' else (k', v') :: dict_set k v d'
  end.

(** [dict(pairs)] *)
Definition dict_of_pairs (pairs : list (str * value)) : list (str * value) :=
  fold_left (fun d kv => dict_set kv.1 kv.2 d) pairs [].

(** The last branches of [scan_once]: the three literals, a number, and the
    constants NaN, Infinity and -Infinity. *)
Definition scan_scalar (s : str) : option (value * str) :=
  match strip_prefix (lit "null") s, strip_prefix (lit "true") s,
        strip_prefix (lit "false") s with
  | Some r, _, _ => Some (JNull, r)
  | None, Some r, _ => Some (JBool true, r)
  | None, None, Some r => Some (JBool false, r)
  | None, None, None =>
      match match_number s with
      | Some (integer, frac, exp, r) =>
          match frac, exp with
          | [], [] => Some (JInt (int_of_literal integer), r)
          | _, _ => Some (JFloat (float_of_literal (integer ++ frac ++ exp)), r)
          end
      | None =>
          match strip_prefix (lit "NaN") s, strip_prefix (lit "Infinity") s,
                strip_prefix (lit "-Infinity") s with
          | Some r, _, _ => Some (JFloat (float_of_literal (lit "NaN")), r)
          | None, Some r, _ => Some (JFloat (float_of_literal (lit "Infinity")), r)
          | None, None, Some r =>
              Some (JFloat (float_of_literal (lit "-Infinity")), r)
          | None, None, None => None
          end
      end
  end.

(** The scanner: [scan_once], [JSONArray] and [JSONObject].  Every call
    spends one unit of [fuel]; between two nested calls at most one is made
    without consuming input, so twice the length of the input is enough
    ([scan_fuel_enough] below). *)
Fixpoint scan_once (fuel : nat) (s : str) : option (value * str) :=
  match fuel with
  | O => None
  | S n =>
      match s with
      | [] => None
      | c :: t =>
          if (c =? 34)%N then
            match scanstring t [] with
            | Some (x, r) => Some (JStr x, r)
            | None => None
            end
          else if (c =? 123)%N then
            match skip_ws t with
            | c' :: r =>
                if (c' =? 125)%N then Some (JDict [], r)
                else if (c' =? 34)%N then parse_members n r []
                else None
            | [] => None
            end
          else if (c =? 91)%N then
            match skip_ws t with
            | c' :: r =>
                if (c' =? 93)%N then Some (JList [], r)
                else parse_elements n (c' :: r) []
            | [] => None
            end
          else scan_scalar s
      end
  end
(** The values of an array, entered at a value; [acc] holds the earlier ones
    reversed. *)
with parse_elements (fuel : nat) (s : str) (acc : list value) : option (value * str) :=
  match fuel with
  | O => None
  | S n =>
      match scan_once n s with
      | None => None
      | Some (v, r) =>
          match skip_ws r with
          | c :: r' =>
              if (c =? 93)%N then Some (JList (rev (v :: acc)), r')
              else if (c =? 44)%N then parse_elements n (skip_ws r') (v :: acc)
              else None
          | [] => None
          end
      end
  end
(** The pairs of an object, entered after the opening quote of a key. *)
with parse_members (fuel : nat) (s : str) (acc : list (str * value)) : option (value * str) :=
  match fuel with
  | O => None
  | S n =>
      match scanstring s [] with
      | None => None
      | Some (key, r) =>
          match skip_ws r with
          | c :: r1 =>
              if (c =? 58)%N then
                match scan_once n (skip_ws r1) with
                | None => None
                | Some (v, r2) =>
                    match skip_ws r2 with
                    | c2 :: r3 =>
                        if (c2 =? 125)%N then
                          Some (JDict (dict_of_pairs (rev ((key, v) :: acc))), r3)
                        else if (c2 =? 44)%N then
                          match skip_ws r3 with
                          | c3 :: r4 =>
                              if (c3 =? 34)%N then parse_members n r4 ((key, v) :: acc)
                              else None
                          | [] => None
                          end
                        else None
                    | [] => None
                    end
                end
              else None
          | [] => None
          end
      end
  end.

(** [json.loads(s)]: [None] stands for [JSONDecodeError]. *)
Definition loads (s : str) : option value :=
  match scan_once (2 * length s + 2) (skip_ws s) with
  | Some (v, r) => match skip_ws r with [] => Some v | _ => None end
  | None => None
  end.

(** *** Encoding *)

Definition hex_char (d : N) : N := if (d <? 10)%N then (48 + d)%N else (87 + d)%N.

(** ['\\u{0:04x}'.format(n)] *)
Definition u_escape (n : N) : str :=
  [92; 117; hex_char (N.shiftr n 12 mod 16); hex_char (N.shiftr n 8 mod 16);
   hex_char (N.shiftr n 4 mod 16); hex_char (n mod 16)]%N.

(** The replacement of one character in [encode_basestring_ascii]. *)
Definition escape_char (c : N) : str :=
  if (c =? 92)%N then lit "\\"
  else if (c =? 34)%N then [92; 34]%N
  else if in_range 32 126 c then [c]
  else if (c =? 8)%N then lit "\b"
  else if (c =? 12)%N then lit "\f"
  else if (c =? 10)%N then lit "\n"
  else if (c =? 13)%N then lit "\r"
  else if (c =? 9)%N then lit "\t"
  else if (c <? 65536)%N then u_escape c
  else
    let n := (c - 65536)%N in
    u_escape (N.lor 55296 (N.land (N.shiftr n 10) 1023))
    ++ u_escape (N.lor 56320 (N.land n 1023)).

Definition encode_basestring_ascii (s : str) : str :=
  [34%N] ++ concat (map escape_char s) ++ [34%N].

(** [newline_indent] at a nesting level, for [indent=2]. *)
Definition newline_indent (level : nat) : str :=
  LF :: concat (repeat (lit "  ") level).

(** [_iterencode] with [indent=2], the default separators and
    [ensure_ascii=True], joined. *)
Fixpoint encode (level : nat) (v : value) : str :=
  match v with
  | JNull => lit "null"
  | JBool true => lit "true"
  | JBool false => lit "false"
  | JInt z => str_of_int z
  | JFloat x => floatstr x
  | JStr s => encode_basestring_ascii s
  | JList [] => lit "[]"
  | JList l =>
      lit "[" ++ newline_indent (S level)
      ++ join (lit "," ++ newline_indent (S level)) (map (encode (S level)) l)
      ++ newline_indent level ++ lit "]"
  | JDict [] => lit "{}"
  | JDict d =>
      lit "{" ++ newline_indent (S level)
      ++ join (lit "," ++ newline_indent (S level))
           (map (fun kv => encode_basestring_ascii (fst kv) ++ lit ": "
                           ++ encode (S level) (snd kv)) d)
      ++ newline_indent level ++ lit "}"
  end.

(** [json.dumps(v, indent=2)] *)
Definition dumps (v : value) : str := encode 0 v.

End Codec.
End Json.

(** ** The data model *)

Section Model.
Context `{PyFloat}.
Import Py.

(** The entries of the method [OptionMenu]. *)
Inductive Method := GET | POST | PUT | PATCH | DELETE | HEAD | OPTIONS.

Definition method_name (m : Method) : str :=
  match m with
  | GET => lit "GET" | POST => lit "POST" | PUT => lit "PUT"
  | PATCH => lit "PATCH" | DELETE => lit "DELETE" | HEAD => lit "HEAD"
  | OPTIONS => lit "OPTIONS"
  end.

(** The dataclass [RequestHistoryItem]. *)
Record RequestHistoryItem := {
  method : str;
  url : str;
  headers : gmap str str;
  body : str;
  response_status : option Z;
  response_time : option pyfloat;
  response_preview : str
}.

(** The [__eq__] that [@dataclass] generates: the tuples of the fields are
    compared, so two distinct objects with equal fields are equal. *)
Definition dataclass_eq (a b : RequestHistoryItem) : bool :=
  bool_decide (method a = method b) && bool_decide (url a = url b)
  && bool_decide (headers a = headers b) && bool_decide (body a = body b)
  && bool_decide (response_status a = response_status b)
  && bool_decide (response_time a = response_time b)
  && bool_decide (response_preview a = response_preview b).

Definition display_label (self : RequestHistoryItem) : str :=
  let status :=
    match response_status self with
    | Some z => str_of_int z
    | None => lit "..."
    end in
  let duration :=
    match response_time self with
    | Some t => format_ms t ++ lit " ms"
    | None => lit "pending"
    end in
  method self ++ lit " " ++ url self ++ lit " (" ++ status ++ lit ", "
  ++ duration ++ lit ")".

(** The [result] dictionary the worker publishes; its four keys are fixed. *)
Record Result := {
  res_status : str;
  res_elapsed : str;
  res_headers : str;
  res_body : str
}.

(** What [requests.request] hands back: a response, or a
    [RequestException] (carried as its [str(exc)]). *)
Record Response := {
  status_code : Z;
  reason : str;
  resp_headers : list (str * str);
  text : str
}.

Inductive Exchange :=
  | Returned (response : Response)
  | Raised (exc : str).

(** Calls to [tkinter.messagebox], in the order they are made. *)
Inductive Dialog :=
  | showerror (title message : str)
  | showwarning (title message : str)
  | askyesno (title message : str).

Inductive Exn := IndexError.


(** Where a thread running [_worker_loop] stands. *)
Inductive Thread :=
  | AtWhile                 (* about to test [not self.request_queue.empty()] *)
  | AtGet                   (* about to call [self.request_queue.get()] *)
  | InRequest (item : ref)  (* inside [requests.request] for [item] *)
  | Finished.               (* left the loop *)

(** [ApiTesterApp]: the attributes the handlers use, the heap of items, the
    worker threads started so far and the dialogs shown. *)
Record App := {
  heap : list RequestHistoryItem;
  request_queue : list ref;
  response_queue : list (ref * Result);
  history : list ref;
  (* request form *)
  method_var : Method;
  url_entry : str;
  headers_text : str;
  body_text : str;
  (* response panel *)
  status_var : str;
  elapsed_var : str;
  response_headers_text : str;
  response_body_text : str;
  history_listbox : list str;
  threads : list Thread;
  dialogs : list Dialog
}.

Definition with_heap (v : list RequestHistoryItem) (a : App) : App :=
  {| heap := v; request_queue := request_queue a; response_queue := response_queue a;
     history := history a; method_var := method_var a; url_entry := url_entry a;
     headers_text := headers_text a; body_text := body_text a;
     status_var := status_var a; elapsed_var := elapsed_var a;
     response_headers_text := response_headers_text a;
     response_body_text := response_body_text a;
     history_listbox := history_listbox a; threads := threads a; dialogs := dialogs a |}.

Definition with_request_queue (v : list ref) (a : App) : App :=
  {| heap := heap a; request_queue := v; response_queue := response_queue a;
     history := history a; method_var := method_var a; url_entry := url_entry a;
     headers_text := headers_text a; body_text := body_text a;
     status_var := status_var a; elapsed_var := elapsed_var a;
     response_headers_text := response_headers_text a;
     response_body_text := response_body_text a;
     history_listbox := history_listbox a; threads := threads a; dialogs := dialogs a |}.

Definition with_response_queue (v : list (ref * Result)) (a : App) : App :=
  {| heap := heap a; request_queue := request_queue a; response_queue := v;
     history := history a; method_var := method_var a; url_entry := url_entry a;
     headers_text := headers_text a; body_text := body_text a;
     status_var := status_var a; elapsed_var := elapsed_var a;
     response_headers_text := response_headers_text a;
     response_body_text := response_body_text a;
     history_listbox := history_listbox a; threads := threads a; dialogs := dialogs a |}.

Definition with_history (v : list ref) (a : App) : App :=
  {| heap := heap a; request_queue := request_queue a; response_queue := response_queue a;
     history := v; method_var := method_var a; url_entry := url_entry a;
     headers_text := headers_text a; body_text := body_text a;
     status_var := status_var a; elapsed_var := elapsed_var a;
     response_headers_text := response_headers_text a;
     response_body_text := response_body_text a;
     history_listbox := history_listbox a; threads := threads a; dialogs := dialogs a |}.

Definition with_form (m : Method) (u h b : str) (a : App) : App :=
  {| heap := heap a; request_queue := request_queue a; response_queue := response_queue a;
     history := history a; method_var := m; url_entry := u;
     headers_text := h; body_text := b;
     status_var := status_var a; elapsed_var := elapsed_var a;
     response_headers_text := response_headers_text a;
     response_body_text := response_body_text a;
     history_listbox := history_listbox a; threads := threads a; dialogs := dialogs a |}.

Definition with_panel (st el hd bd : str) (a : App) : App :=
  {| heap := heap a; request_queue := request_queue a; response_queue := response_queue a;
     history := history a; method_var := method_var a; url_entry := url_entry a;
     headers_text := headers_text a; body_text := body_text a;
     status_var := st; elapsed_var := el;
     response_headers_text := hd; response_body_text := bd;
     history_listbox := history_listbox a; threads := threads a; dialogs := dialogs a |}.

Definition with_history_listbox (v : list str) (a : App) : App :=
  {| heap := heap a; request_queue := request_queue a; response_queue := response_queue a;
     history := history a; method_var := method_var a; url_entry := url_entry a;
     headers_text := headers_text a; body_text := body_text a;
     status_var := status_var a; elapsed_var := elapsed_var a;
     response_headers_text := response_headers_text a;
     response_body_text := response_body_text a;
     history_listbox := v; threads := threads a; dialogs := dialogs a |}.

Definition with_threads (v : list Thread) (a : App) : App :=
  {| heap := heap a; request_queue := request_queue a; response_queue := response_queue a;
     history := history a; method_var := method_var a; url_entry := url_entry a;
     headers_text := headers_text a; body_text := body_text a;
     status_var := status_var a; elapsed_var := elapsed_var a;
     response_headers_text := response_headers_text a;
     response_body_text := response_body_text a;
     history_listbox := history_listbox a; threads := v; dialogs := dialogs a |}.

Definition with_dialogs (v : list Dialog) (a : App) : App :=
  {| heap := heap a; request_queue := request_queue a; response_queue := response_queue a;
     history := history a; method_var := method_var a; url_entry := url_entry a;
     headers_text := headers_text a; body_text := body_text a;
     status_var := status_var a; elapsed_var := elapsed_var a;
     response_headers_text := response_headers_text a;
     response_body_text := response_body_text a;
     history_listbox := history_listbox a; threads := threads a; dialogs := v |}.

(** [ApiTesterApp.__init__], after [_build_layout]. *)
Definition init : App :=
  {| heap := []; request_queue := []; response_queue := []; history := [];
     method_var := GET; url_entry := []; headers_text := []; body_text := [];
     status_var := lit "-"; elapsed_var := lit "-";
     response_headers_text := []; response_body_text := [];
     history_listbox := []; threads := []; dialogs := [] |}.

(** [widget.get("1.0", tk.END)] on a [Text] widget: the content and the
    newline Tk keeps at the end of the text. *)
Definition text_get (content : str) : str := content ++ [LF].

(** ** The handlers *)

(** One round of the loop of [_parse_headers]. *)
Definition parse_header_line (acc : gmap str str * list Dialog) (line : str)
  : gmap str str * list Dialog :=
  if bool_decide (strip line = []) then acc
  else if negb (contains COLON line) then
    (acc.1, acc.2 ++ [showwarning (lit "Invalid header")
                        (lit "Header '" ++ line
                         ++ lit "' is missing a colon. It will be ignored.")])
  else
    let '(key, value) := split1 COLON line in
    (<[strip key := strip value]> acc.1, acc.2).

(** [_parse_headers]: the mapping and the warnings shown on the way. *)
Definition _parse_headers (raw : str) : gmap str str * list Dialog :=
  fold_left parse_header_line (splitlines (strip raw)) (∅, []).

Definition _format_body (body : str) : str :=
  match Json.loads body with
  | None => body
  | Some parsed => Json.dumps parsed
  end.

Definition _refresh_history_listbox (self : App) : App :=
  with_history_listbox
    (map (fun item => from_option display_label [] (heap self !! item))
         (reverse (history self)))
    self.

Definition _display_response (result : Result) (self : App) : App :=
  with_panel (res_status result) (res_elapsed result) (res_headers result)
    (res_body result) self.

(** [_queue_request].  The thread is started when [qsize()] is 1 after the
    [put]. *)
Definition _queue_request (self : App) : App :=
  let url := strip (url_entry self) in
  match url with
  | [] =>
      with_dialogs
        (dialogs self ++ [showerror (lit "Missing URL")
                            (lit "Please provide a URL before sending.")])
        self
  | _ =>
      let method := upper (method_name (method_var self)) in
      let '(headers, warnings) := _parse_headers (text_get (headers_text self)) in
      let body := strip (text_get (body_text self)) in
      let item := {| method := method; url := url; headers := headers; body := body;
                     response_status := None; response_time := None;
                     response_preview := [] |} in
      let r := length (heap self) in
      let self := with_dialogs (dialogs self ++ warnings) self in
      let self := with_heap (heap self ++ [item]) self in
      let self := with_history (history self ++ [r]) self in
      let self := _refresh_history_listbox self in
      let self := with_request_queue (request_queue self ++ [r]) self in
      let self := with_panel (lit "Pending...") (lit "-") [] [] self in
      if (length (request_queue self) =? 1)%nat
      then with_threads (threads self ++ [AtWhile]) self
      else self
  end.

(** *** [_worker_loop], one thread [t] at a time *)

(** The loop test: an empty queue ends the thread. *)
Definition _worker_loop_test (t : nat) (self : App) : option App :=
  match threads self !! t with
  | Some AtWhile =>
      match request_queue self with
      | [] => Some (with_threads (<[t := Finished]> (threads self)) self)
      | _ => Some (with_threads (<[t := AtGet]> (threads self)) self)
      end
  | _ => None
  end.

(** [self.request_queue.get()]: blocks (no step) while the queue is empty. *)
Definition _worker_loop_get (t : nat) (self : App) : option App :=
  match threads self !! t with
  | Some AtGet =>
      match request_queue self with
      | [] => None
      | item :: rest =>
          Some (with_threads (<[t := InRequest item]> (threads self))
                  (with_request_queue rest self))
      end
  | _ => None
  end.

(** The body of [try] and the [except] clause for one exchange, with the
    elapsed time measured around the call. *)
Definition _worker_loop_exchange (x : Exchange) (elapsed : pyfloat)
    (item : RequestHistoryItem) : RequestHistoryItem * Result :=
  match x with
  | Returned response =>
      let preview := replace LF SPACE (slice_to 200 (text response)) in
      ({| method := method item; url := url item; headers := headers item;
          body := body item;
          response_status := Some (status_code response);
          response_time := Some elapsed;
          response_preview := preview |},
       {| res_status := str_of_int (status_code response) ++ lit " " ++ reason response;
          res_elapsed := format_2f elapsed ++ lit " s";
          res_headers :=
            Json.dumps (Json.JDict (Json.dict_of_pairs
              (map (fun kv => (fst kv, Json.JStr (snd kv))) (resp_headers response))));
          res_body := _format_body (text response) |})
  | Raised exc =>
      ({| method := method item; url := url item; headers := headers item;
          body := body item;
          response_status := None;
          response_time := Some elapsed;
          response_preview := exc |},
       {| res_status := lit "Request failed";
          res_elapsed := format_2f elapsed ++ lit " s";
          res_headers := [];
          res_body := exc |})
  end.

(** The exchange of thread [t] ends: the item is written in place, the pair
    is put on the response queue, and the thread is back at the loop test. *)
Definition _worker_loop_finish (t : nat) (x : Exchange) (elapsed : pyfloat) (self : App)
  : option App :=
  match threads self !! t with
  | Some (InRequest r) =>
      match heap self !! r with
      | Some item =>
          let '(item', result) := _worker_loop_exchange x elapsed item in
          Some (with_threads (<[t := AtWhile]> (threads self))
                  (with_response_queue (response_queue self ++ [(r, result)])
                     (with_heap (<[r := item']> (heap self)) self)))
      | None => None
      end
  | _ => None
  end.

(** *** [poll_queue] *)

(** [item == self.history[-1]] on two references. *)
Definition items_equal (self : App) (a b : ref) : bool :=
  match heap self !! a, heap self !! b with
  | Some x, Some y => dataclass_eq x y
  | _, _ => false
  end.

(** The body of the [while True] loop after [get_nowait()] returned
    [(item, result)]. *)
Definition poll_body (item : ref) (result : Result) (self : App) : App + Exn :=
  match last (history self) with
  | None => inr IndexError
  | Some latest =>
      let self := if items_equal self item latest
                  then _display_response result self else self in
      inl (_refresh_history_listbox self)
  end.

(** The loop over the pairs waiting in the response queue; [queue.Empty]
    ends it quietly, any other exception leaves through [finally]. *)
Fixpoint poll_loop (waiting : list (ref * Result)) (self : App) : App * option Exn :=
  match waiting with
  | [] => (self, None)
  | (item, result) :: rest =>
      let self := with_response_queue rest self in
      match poll_body item result self with
      | inr e => (self, Some e)
      | inl self' => poll_loop rest self'
      end
  end.

Definition poll_queue (self : App) : App * option Exn :=
  poll_loop (response_queue self) self.

(** [_start_response_loop] runs [poll_queue] once; [poll_queue] reschedules
    itself with [root.after], so it runs again at every later tick. *)
Definition _start_response_loop (self : App) : App * option Exn := poll_queue self.

(** *** History handlers *)

(** [del l[index]]: a negative index counts from the end; out of range is
    [IndexError]. *)
Definition list_del {A} (index : Z) (l : list A) : option (list A) :=
  let n := Z.of_nat (length l) in
  if bool_decide (0 <= index < n)%Z then Some (delete (Z.to_nat index) l)
  else if bool_decide (- n <= index < 0)%Z then Some (delete (Z.to_nat (n + index)) l)
  else None.

(** [_delete_selected_history]; [selection] is what
    [self.history_listbox.curselection()] returns. *)
Definition _delete_selected_history (selection : list nat) (self : App)
  : App * option Exn :=
  match selection with
  | [] => (self, None)
  | row :: _ =>
      let index := (Z.of_nat (length (history self)) - 1 - Z.of_nat row)%Z in
      match list_del index (history self) with
      | None => (self, Some IndexError)
      | Some h => (_refresh_history_listbox (with_history h self), None)
      end
  end.

(** [_clear_history]; [answer] is what [askyesno] returns. *)
Definition _clear_history (answer : bool) (self : App) : App :=
  let self :=
    with_dialogs (dialogs self ++ [askyesno (lit "Clear history")
                                     (lit "Remove all saved requests?")]) self in
  if answer then _refresh_history_listbox (with_history [] self) else self.

(** ** The application as a transition system *)

(** What can happen next: the user edits the form (by typing or by loading a
    history entry), presses a button, answers the poll timer, or one of the
    worker threads moves. *)
Inductive Event :=
  | EditForm (m : Method) (url headers body : str)
  | Send
  | Poll
  | Delete (selection : list nat)
  | Clear (answer : bool)
  | WorkerTest (t : nat)
  | WorkerGet (t : nat)
  | WorkerFinish (t : nat) (x : Exchange) (elapsed : pyfloat).

(** A listbox selection names rows of the listbox. *)
Definition selectable (selection : list nat) (self : App) : bool :=
  forallb (fun row => (row <? length (history_listbox self))%nat) selection.

Definition step (e : Event) (self : App) : option App :=
  match e with
  | EditForm m u h b => Some (with_form m u h b self)
  | Send => Some (_queue_request self)
  | Poll => Some (fst (poll_queue self))
  | Delete selection =>
      if selectable selection self
      then Some (fst (_delete_selected_history selection self))
      else None
  | Clear answer => Some (_clear_history answer self)
  | WorkerTest t => _worker_loop_test t self
  | WorkerGet t => _worker_loop_get t self
  | WorkerFinish t x elapsed => _worker_loop_finish t x elapsed self
  end.

Fixpoint run (events : list Event) (self : App) : option App :=
  match events with
  | [] => Some self
  | e :: rest =>
      match step e self with
      | Some self' => run rest self'
      | None => None
      end
  end.

Definition reachable (self : App) : Prop :=
  exists events, run events init = Some self.

(** The threads that have not left [_worker_loop]. *)
Definition alive (th : Thread) : bool :=
  match th with Finished => false | _ => true end.

Definition live_workers (self : App) : nat :=
  length (filter (fun th => alive th = true) (threads self)).

(** The item a thread is sending, if any. *)
Definition holding (th : Thread) : option ref :=
  match th with InRequest r => Some r | _ => None end.

(** The items some worker is sending right now. *)
Definition in_flight (self : App) : list ref := omap holding (threads self).

(** The items that wait in the dispatch queue or are being sent. *)
Definition owned (self : App) : list ref := request_queue self ++ in_flight self.

End Model.

(** ** An instance to run the model on examples

    Floats that are a whole number of milliseconds, held as that number.  The
    examples below contain no JSON number with a fraction, so the two JSON
    entries are never called; every general statement is proved for an
    arbitrary [PyFloat]. *)

Module Millis.
Import Py.

Definition two_digits (n : Z) : str :=
  (if (n <? 10)%Z then lit "0" else []) ++ str_of_int n.

(** Seconds with two decimals, from milliseconds. *)
Definition seconds_2f (ms : Z) : str :=
  let cs := ((ms + 5) / 10)%Z in
  str_of_int (cs / 100) ++ lit "." ++ two_digits (cs mod 100).

#[export] Instance float : PyFloat := {|
  pyfloat := Z;
  format_2f := seconds_2f;
  format_ms := str_of_int;
  float_of_literal := fun _ => 0%Z;
  floatstr := fun ms => str_of_int ms
|}.

End Millis.

(** Text with line feeds: the lines joined by a newline character. *)
Definition lines (ls : list str) : str := Py.join [Py.LF] ls.

(** The double quote, which a string literal cannot hold undoubled. *)
Definition dq : str := [34%N].

(** ** Vocabulary of the statements *)

Section Vocabulary.
Context `{PyFloat}.
Import Py.

(** A line [_parse_headers] skips silently. *)
Definition blank (line : str) : bool := bool_decide (strip line = []).

(** A line that is not blank and has no colon. *)
Definition malformed (line : str) : bool :=
  negb (blank line) && negb (contains COLON line).

(** A line that is not blank and has a colon. *)
Definition well_formed (line : str) : bool :=
  negb (blank line) && contains COLON line.

(** The entry a well-formed line stands for. *)
Definition header_of (line : str) : str * str :=
  (strip (split1 COLON line).1, strip (split1 COLON line).2).

Definition missing_colon_warning (line : str) : Dialog :=
  showwarning (lit "Invalid header")
    (lit "Header '" ++ line ++ lit "' is missing a colon. It will be ignored.").

Definition missing_url_error : Dialog :=
  showerror (lit "Missing URL") (lit "Please provide a URL before sending.").

Definition all_space (s : str) : Prop := Forall (fun c => isspace c = true) s.

(** A string that neither starts nor ends with whitespace. *)
Definition trimmed (s : str) : Prop :=
  match s with
  | [] => True
  | c :: _ => isspace c = false /\ exists d, last s = Some d /\ isspace d = false
  end.

(** The event writes the fields of item [r]: a thread that holds [r] ends
    its exchange. *)
Definition writes (r : ref) (e : Event) (self : App) : bool :=
  match e with
  | WorkerFinish t _ _ =>
      match threads self !! t with
      | Some (InRequest r') => bool_decide (r' = r)
      | _ => false
      end
  | _ => false
  end.

(** How often item [r] is written along a run. *)
Fixpoint count_writes (r : ref) (events : list Event) (self : App) : nat :=
  match events with
  | [] => 0
  | e :: rest =>
      (if writes r e self then 1 else 0)
      + match step e self with
        | Some self' => count_writes r rest self'
        | None => 0
        end
  end.

(** The outcome of item [r] has arrived. *)
Definition completed (self : App) (r : ref) : bool :=
  match heap self !! r with
  | Some item => bool_decide (response_time item <> None)
  | None => false
  end.

(** An item that waits or is being sent exists and has no outcome yet. *)
Definition pending (self : App) (r : ref) : Prop :=
  exists item, heap self !! r = Some item /\ response_time item = None.

(** No item waits or is being sent twice, and all of them are pending. *)
Definition dispatch_inv (self : App) : Prop :=
  NoDup (owned self) /\ forall r, r ∈ owned self -> pending self r.

(** The listbox has one row per history entry. *)
Definition listbox_inv (self : App) : Prop :=
  length (history_listbox self) = length (history self).

End Vocabulary.

(** ** Runs used as examples *)

Module Examples.
Import Py.

Section AnyFloat.
Context `{PyFloat}.

Definition form_ok : Event := EditForm GET (lit "https://example.test/ok") [] [].

(** A first record is being sent when a second one is submitted. *)
Definition overlap : list Event :=
  [form_ok; Send; WorkerTest 0; WorkerGet 0; Send].

(** ... and the thread started for the second one takes it. *)
Definition overlap_both_sent : list Event :=
  overlap ++ [WorkerTest 1; WorkerGet 1].

(** Two records in the history, nothing sent yet. *)
Definition two_submitted : list Event := [form_ok; Send; Send].

(** Two records submitted, the first one being sent. *)
Definition first_in_flight : list Event :=
  [form_ok; Send; Send; WorkerTest 0; WorkerGet 0].

Definition state_after (events : list Event) : App :=
  from_option id init (run events init).

(** A record as [_queue_request] makes it. *)
Definition fresh_item : RequestHistoryItem :=
  {| method := lit "GET"; url := lit "https://example.test/ok"; headers := ∅;
     body := []; response_status := None; response_time := None;
     response_preview := [] |}.

End AnyFloat.

Import Millis.

(** A response with the body [{"a":1}]. *)
Definition json_response : Response :=
  {| status_code := 200; reason := lit "OK";
     resp_headers := [(lit "Content-Type", lit "application/json")];
     text := lit "{" ++ dq ++ lit "a" ++ dq ++ lit ":1}" |}.

(** The same document over two lines. *)
Definition json_response_two_lines : Response :=
  {| status_code := 200; reason := lit "OK";
     resp_headers := [];
     text := lines [lit "{" ++ dq ++ lit "a" ++ dq ++ lit ":"; lit "1}"] |}.

(** Two bodies that are not JSON and have the same preview. *)
Definition text_two_lines : Response :=
  {| status_code := 200; reason := lit "OK"; resp_headers := [];
     text := lines [lit "a"; lit "b"] |}.

Definition text_one_line : Response :=
  {| status_code := 200; reason := lit "OK"; resp_headers := [];
     text := lit "a b" |}.

(** The same form is submitted twice; one worker sends both, and both
    exchanges take 120 ms and return the same status and preview. *)
Definition twins : list Event :=
  [form_ok; Send; Send;
   WorkerTest 0; WorkerGet 0; WorkerFinish 0 (Returned text_two_lines) 120%Z;
   WorkerTest 0; WorkerGet 0; WorkerFinish 0 (Returned text_one_line) 120%Z].

(** The pairs the worker publishes for the two exchanges of [twins]. *)
Definition twin_result_a : Result :=
  (_worker_loop_exchange (Returned text_two_lines) 120%Z fresh_item).2.

Definition twin_result_b : Result :=
  (_worker_loop_exchange (Returned text_one_line) 120%Z fresh_item).2.

(** The history is cleared while the only record is being sent. *)
Definition cleared_in_flight : list Event :=
  [form_ok; Send; WorkerTest 0; WorkerGet 0; Clear true;
   WorkerFinish 0 (Raised (lit "timed out")) 60000%Z].

(** The form filled with the three header lines of the round trip. *)
Definition form_with_headers : Event :=
  EditForm GET (lit " https://example.test/ok ")
    (lines [lit "X-Test: 1"; lit "Bad-Line"; lit "Y: 2"]) (lit " {} ").

(** A record with two headers and a body is submitted. *)
Definition sent_with_headers : list Event := [form_with_headers; Send].

(** The record that submission stores. *)
Definition item_with_headers : RequestHistoryItem :=
  {| method := lit "GET"; url := lit "https://example.test/ok";
     headers := <[lit "Y" := lit "2"]> (<[lit "X-Test" := lit "1"]> ∅);
     body := lit "{}"; response_status := None; response_time := None;
     response_preview := [] |}.

(** Every exchange returns the JSON response after 120 ms. *)
Definition all_ok (r : ref) : Exchange * pyfloat := (Returned json_response, 120%Z).

End Examples.

(** ** Loading a history entry into the form *)

Section Loading.
Context `{PyFloat}.
Import Py.

(** [l[index]]: a negative index counts from the end; out of range is
    [IndexError]. *)
Definition list_get {A} (index : Z) (l : list A) : option A :=
  let n := Z.of_nat (length l) in
  if bool_decide (0 <= index < n)%Z then l !! Z.to_nat index
  else if bool_decide (- n <= index < 0)%Z then l !! Z.to_nat (n + index)
  else None.

Definition menu : list Method := [GET; POST; PUT; PATCH; DELETE; HEAD; OPTIONS].

(** The menu entry with a given name.  [method_var] holds a menu entry, so
    a string that names none cannot be put into it. *)
Definition method_of_name (name : str) : option Method :=
  find (fun m => bool_decide (method_name m = name)) menu.

(** [f"{k}: {v}"] *)
Definition header_line (kv : str * str) : str := kv.1 ++ lit ": " ++ kv.2.

(** [_populate_form]; [items] is what [item.headers.items()] yields.  The
    result is [None] when [item.method] names no menu entry. *)
Definition _populate_form (items : list (str * str)) (item : RequestHistoryItem)
    (self : App) : option App :=
  match method_of_name (method item) with
  | Some m =>
      Some (with_form m (url item) (join [LF] (map header_line items)) (body item) self)
  | None => None
  end.

(** The common part of the two load handlers: the index computed from the
    selected row, [self.history[index]] and [_populate_form].  [order] gives
    the order in which a dict yields its items.  The outer [None] stands for
    a reference to no object or a method outside the menu. *)
Definition load_row (order : gmap str str -> list (str * str)) (row : nat)
    (self : App) : option (App * option Exn) :=
  let index := (Z.of_nat (length (history self)) - 1 - Z.of_nat row)%Z in
  match list_get index (history self) with
  | None => Some (self, Some IndexError)
  | Some r =>
      match heap self !! r with
      | Some item =>
          match _populate_form (order (headers item)) item self with
          | Some self' => Some (self', None)
          | None => None
          end
      | None => None
      end
  end.

(** [_load_selected_history]; [selection] is what [curselection()] returns. *)
Definition _load_selected_history (order : gmap str str -> list (str * str))
    (selection : list nat) (self : App) : option (App * option Exn) :=
  match selection with
  | [] => Some (self, None)
  | row :: _ => load_row order row self
  end.

(** [_load_history_item], bound to the listbox selection event. *)
Definition _load_history_item (order : gmap str str -> list (str * str))
    (selection : list nat) (self : App) : option (App * option Exn) :=
  match history self with
  | [] => Some (self, None)
  | _ =>
      match selection with
      | [] => Some (self, None)
      | row :: _ => load_row order row self
      end
  end.

End Loading.

(** ** Vocabulary of the further statements *)

Section Vocabulary2.
Context `{PyFloat}.
Import Py.

Definition no_linebreak (s : str) : Prop := Forall (fun c => is_linebreak c = false) s.

(** What [_parse_headers] puts into a mapping: stripped keys without colon,
    stripped values, no line boundary in either. *)
Definition headers_ok (m : gmap str str) : Prop :=
  forall k v, m !! k = Some v ->
    trimmed k /\ trimmed v /\ contains COLON k = false
    /\ no_linebreak k /\ no_linebreak v.

(** What [_queue_request] and the worker keep true of a record. *)
Definition record_ok (item : RequestHistoryItem) : Prop :=
  url item <> [] /\ trimmed (url item) /\ trimmed (body item)
  /\ (exists m, method item = method_name m)
  /\ headers_ok (headers item)
  /\ (response_time item = None ->
      response_status item = None /\ response_preview item = []).

(** The record [_queue_request] builds from the form. *)
Definition new_record (self : App) : RequestHistoryItem :=
  {| method := upper (method_name (method_var self));
     url := strip (url_entry self);
     headers := (_parse_headers (text_get (headers_text self))).1;
     body := strip (text_get (body_text self));
     response_status := None; response_time := None;
     response_preview := [] |}.

(** What one step does to the heap, the two queues, the threads and the
    history. *)
Inductive effect (s s' : App) : Prop :=
  | eff_none :
      heap s' = heap s -> request_queue s' = request_queue s ->
      threads s' = threads s -> response_queue s' = response_queue s ->
      history s' = history s -> effect s s'
  | eff_submit :
      strip (url_entry s) <> [] ->
      heap s' = heap s ++ [new_record s] ->
      request_queue s' = request_queue s ++ [length (heap s)] ->
      threads s' = match request_queue s with
                   | [] => threads s ++ [AtWhile]
                   | _ => threads s
                   end ->
      response_queue s' = response_queue s ->
      history s' = history s ++ [length (heap s)] -> effect s s'
  | eff_poll (k : nat) :
      heap s' = heap s -> request_queue s' = request_queue s ->
      threads s' = threads s -> response_queue s' = drop k (response_queue s) ->
      history s' = history s -> effect s s'
  | eff_delete (i : nat) :
      heap s' = heap s -> request_queue s' = request_queue s ->
      threads s' = threads s -> response_queue s' = response_queue s ->
      history s' = delete i (history s) -> effect s s'
  | eff_clear :
      heap s' = heap s -> request_queue s' = request_queue s ->
      threads s' = threads s -> response_queue s' = response_queue s ->
      history s' = [] -> effect s s'
  | eff_test (t : nat) :
      threads s !! t = Some AtWhile ->
      heap s' = heap s -> request_queue s' = request_queue s ->
      threads s' = <[t := match request_queue s with
                          | [] => Finished
                          | _ => AtGet
                          end]> (threads s) ->
      response_queue s' = response_queue s ->
      history s' = history s -> effect s s'
  | eff_get (t : nat) (item : ref) (rest : list ref) :
      threads s !! t = Some AtGet ->
      request_queue s = item :: rest ->
      heap s' = heap s -> request_queue s' = rest ->
      threads s' = <[t := InRequest item]> (threads s) ->
      response_queue s' = response_queue s ->
      history s' = history s -> effect s s'
  | eff_finish (t : nat) (r : ref) (item : RequestHistoryItem) (x : Exchange)
      (elapsed : pyfloat) :
      threads s !! t = Some (InRequest r) ->
      heap s !! r = Some item ->
      heap s' = <[r := (_worker_loop_exchange x elapsed item).1]> (heap s) ->
      request_queue s' = request_queue s ->
      threads s' = <[t := AtWhile]> (threads s) ->
      response_queue s'
      = response_queue s ++ [(r, (_worker_loop_exchange x elapsed item).2)] ->
      history s' = history s -> effect s s'.

(** The history lists addresses in the order of submission, each at most
    once, and only addresses of records. *)
Definition history_inv (self : App) : Prop :=
  history self `sublist_of` seq 0 (length (heap self)).

(** The dispatch queue holds the most recently created records, oldest
    first. *)
Definition queue_inv (self : App) : Prop :=
  length (request_queue self) <= length (heap self)
  /\ request_queue self
     = seq (length (heap self) - length (request_queue self))
           (length (request_queue self)).

(** Every record waits, is being sent, or has its outcome. *)
Definition conservation (self : App) : Prop :=
  forall r, r < length (heap self) -> r ∈ owned self \/ completed self r = true.

(** The pairs on the response queue are for records with an outcome, one
    pair per record at most. *)
Definition response_inv (self : App) : Prop :=
  NoDup (response_queue self).*1
  /\ forall p, p ∈ response_queue self -> completed self p.1 = true.

(** A waiting record has a live worker. *)
Definition served (self : App) : Prop :=
  request_queue self <> [] -> exists th, th ∈ threads self /\ alive th = true.

(** A thread that is not finished can move, when a record waits. *)
Definition can_move (t : nat) (self : App) : Prop :=
  (exists self', _worker_loop_test t self = Some self')
  \/ (exists self', _worker_loop_get t self = Some self')
  \/ (forall x elapsed, exists self', _worker_loop_finish t x elapsed self = Some self').

Definition records_ok (self : App) : Prop :=
  forall r item, heap self !! r = Some item -> record_ok item.

(** The result the panel takes from a poll: of the waiting pairs whose
    record equals the latest history entry, the last one. *)
Definition last_shown (self : App) (latest : ref) (waiting : list (ref * Result))
  : option Result :=
  snd <$> last (List.filter (fun p => items_equal self p.1 latest) waiting).

Definition shows (self : App) (result : Result) : Prop :=
  status_var self = res_status result /\ elapsed_var self = res_elapsed result
  /\ response_headers_text self = res_headers result
  /\ response_body_text self = res_body result.

Definition same_panel (a b : App) : Prop :=
  status_var a = status_var b /\ elapsed_var a = elapsed_var b
  /\ response_headers_text a = response_headers_text b
  /\ response_body_text a = response_body_text b.

(** The labels of the history entries, most recent first. *)
Definition labels (self : App) : list str :=
  map (fun item => from_option display_label [] (heap self !! item))
      (reverse (history self)).

(** What [_populate_form] can write as one header line and
    [_parse_headers] reads back as the same entry. *)
Definition entry_ok (kv : str * str) : Prop :=
  trimmed kv.1 /\ trimmed kv.2 /\ contains COLON kv.1 = false
  /\ no_linebreak kv.1 /\ no_linebreak kv.2.

(** The events of the worker threads. *)
Definition worker_event (e : Event) : bool :=
  match e with
  | WorkerTest _ | WorkerGet _ | WorkerFinish _ _ _ => true
  | _ => false
  end.

(** The record as the worker leaves it after the exchange [outcome]. *)
Definition after_exchange (outcome : Exchange * pyfloat) (item : RequestHistoryItem)
  : RequestHistoryItem :=
  (_worker_loop_exchange outcome.1 outcome.2 item).1.

End Vocabulary2.

(** Projections of updated states. *)
Ltac fields :=
  cbn
    [with_heap with_request_queue with_response_queue with_history with_form
     with_panel with_history_listbox with_threads with_dialogs
     _refresh_history_listbox _display_response
     heap request_queue response_queue history method_var url_entry
     headers_text body_text status_var elapsed_var response_headers_text
     response_body_text history_listbox threads dialogs fst snd] in *.

(** ** Properties *)

Section StringFacts.
Import Py.

Lemma lstrip_all_space s : all_space s -> lstrip s = [].
Proof.
  induction 1 as [|c s Hc _ IH]; simpl; [reflexivity|].
  now rewrite Hc.
Qed.

Lemma lstrip_decomp s :
  exists pre, s = pre ++ lstrip s /\ all_space pre.
Proof.
  induction s as [|c s [pre [IH1 IH2]]]; simpl.
  - exists []. split; [reflexivity | constructor].
  - destruct (isspace c) eqn:Hc.
    + exists (c :: pre). split; [simpl; congruence | now constructor].
    + exists []. split; [reflexivity | constructor].
Qed.

Lemma lstrip_head c t s : lstrip s = c :: t -> isspace c = false.
Proof.
  induction s as [|d s IH]; simpl; [discriminate|].
  destruct (isspace d) eqn:Hd; [assumption|].
  intros [= <- _]. assumption.
Qed.

Lemma all_space_rev s : all_space s -> all_space (rev s).
Proof. apply Forall_rev. Qed.

Lemma strip_all_space s : all_space s -> strip s = [].
Proof.
  intros Hs. unfold strip, rstrip. now rewrite (lstrip_all_space s Hs).
Qed.

(** [strip] removes whitespace at both ends and nothing else. *)
Lemma strip_decomp s :
  exists pre post, s = pre ++ strip s ++ post /\ all_space pre /\ all_space post.
Proof.
  destruct (lstrip_decomp s) as [pre [Hs Hpre]].
  destruct (lstrip_decomp (rev (lstrip s))) as [q [Hq Hqs]].
  exists pre, (rev q). split; [|split; [assumption | now apply all_space_rev]].
  unfold strip, rstrip.
  rewrite <- rev_app_distr, <- Hq, rev_involutive. exact Hs.
Qed.

Lemma strip_trimmed s : trimmed (strip s).
Proof.
  unfold trimmed. destruct (strip s) as [|c t] eqn:E; [exact I|].
  assert (Hlast : exists d, last (strip s) = Some d /\ isspace d = false).
  { unfold strip, rstrip in *.
    destruct (lstrip (rev (lstrip s))) as [|d u] eqn:Eu; [discriminate|].
    exists d. split; [|eapply lstrip_head; eassumption].
    simpl. now rewrite last_snoc. }
  rewrite E in Hlast. split; [|exact Hlast].
  destruct (lstrip_decomp (rev (lstrip s))) as [q [Hq _]].
  apply (f_equal (@rev N)) in Hq. rewrite rev_involutive, rev_app_distr in Hq.
  unfold strip, rstrip in E. rewrite E in Hq. simpl in Hq.
  eapply lstrip_head. exact Hq.
Qed.

Lemma split1_spec sep s :
  contains sep s = true ->
  s = (split1 sep s).1 ++ sep :: (split1 sep s).2
  /\ contains sep (split1 sep s).1 = false.
Proof.
  induction s as [|c s IH]; simpl; [discriminate|].
  rewrite (N.eqb_sym sep c).
  destruct (N.eqb_spec c sep) as [->|Hne]; simpl.
  - intros _. split; reflexivity.
  - intros Hs. destruct (IH Hs) as [IH1 IH2].
    destruct (split1 sep s) as [k v]; simpl in *.
    split; [congruence|].
    rewrite IH2. destruct (N.eqb_spec sep c); [congruence | reflexivity].
Qed.

End StringFacts.

(** ** The JSON scanner has fuel enough *)

Section JsonFacts.
Context `{PyFloat}.
Import Py Json.

Lemma skip_ws_length (s : str) : length (skip_ws s) <= length s.
Proof.
  induction s as [|c s IH]; simpl; [lia|].
  destruct (is_ws c); simpl; lia.
Qed.

Lemma strip_prefix_length (p s r : str) :
  strip_prefix p s = Some r -> length s = length p + length r.
Proof.
  revert s. induction p as [|a p IH]; intros [|b s]; simpl; try discriminate.
  - now intros [= <-].
  - now intros [= <-].
  - destruct (a =? b)%N; [|discriminate]. intros Hp. apply IH in Hp. lia.
Qed.

Lemma span_digits_length (s : str) :
  length s = length (span_digits s).1 + length (span_digits s).2.
Proof.
  induction s as [|c s IH]; simpl; [reflexivity|].
  destruct (is_digit c); [|reflexivity].
  destruct (span_digits s) as [ds r]. simpl in *. lia.
Qed.

Lemma match_int_digits_length (s ds r : str) :
  match_int_digits s = Some (ds, r) -> length r < length s.
Proof.
  unfold match_int_digits. destruct s as [|c t]; [discriminate|].
  destruct (c =? 48)%N; [intros [= <- <-]; simpl; lia|].
  destruct (in_range 49 57 c); [|discriminate].
  pose proof (span_digits_length t) as Hl.
  destruct (span_digits t) as [ds' r']. intros [= <- <-]. simpl in *. lia.
Qed.

Lemma match_frac_length (s : str) : length (match_frac s).2 <= length s.
Proof.
  unfold match_frac. destruct s as [|c t]; [simpl; lia|].
  destruct (c =? 46)%N; [|simpl; lia].
  pose proof (span_digits_length t) as Hl.
  destruct (span_digits t) as [[|d ds] r]; simpl in *; lia.
Qed.

Lemma match_exp_length (s : str) : length (match_exp s).2 <= length s.
Proof.
  unfold match_exp. destruct s as [|c t]; [simpl; lia|].
  destruct ((c =? 101)%N || (c =? 69)%N); [|simpl; lia].
  destruct t as [|c' t''].
  - simpl. lia.
  - destruct ((c' =? 43)%N || (c' =? 45)%N).
    + pose proof (span_digits_length t'') as Hl.
      destruct (span_digits t'') as [[|d ds] r]; simpl in *; lia.
    + pose proof (span_digits_length (c' :: t'')) as Hl.
      destruct (span_digits (c' :: t'')) as [[|d ds] r]; simpl in *; lia.
Qed.

Lemma match_number_length (s i f e r : str) :
  match_number s = Some (i, f, e, r) -> length r < length s.
Proof.
  unfold match_number.
  set (p := match s with
            | [] => ([], s)
            | c :: t => if (c =? 45)%N then ([c], t) else ([], s)
            end).
  assert (Hp : length p.2 <= length s).
  { subst p. destruct s as [|c t]; [simpl; lia|].
    destruct (c =? 45)%N; simpl; lia. }
  destruct p as [sign s1]. simpl in Hp.
  destruct (match_int_digits s1) as [[ds r0]|] eqn:Ei; [|discriminate].
  apply match_int_digits_length in Ei.
  pose proof (match_frac_length r0) as Hf.
  destruct (match_frac r0) as [frac r1]. simpl in Hf.
  pose proof (match_exp_length r1) as He.
  destruct (match_exp r1) as [exp r2]. simpl in He.
  intros [= <- <- <- <-]. lia.
Qed.

Lemma scan_scalar_length (s : str) (v : value) (r : str) :
  scan_scalar s = Some (v, r) -> length r < length s.
Proof.
  unfold scan_scalar.
  destruct (strip_prefix (lit "null") s) as [r1|] eqn:E1.
  { intros [= <- <-]. apply strip_prefix_length in E1. cbn in E1. lia. }
  destruct (strip_prefix (lit "true") s) as [r2|] eqn:E2.
  { intros [= <- <-]. apply strip_prefix_length in E2. cbn in E2. lia. }
  destruct (strip_prefix (lit "false") s) as [r3|] eqn:E3.
  { intros [= <- <-]. apply strip_prefix_length in E3. cbn in E3. lia. }
  destruct (match_number s) as [[[[i f] e] r4]|] eqn:E4.
  { apply match_number_length in E4.
    destruct f, e; intros [= <- <-]; exact E4. }
  destruct (strip_prefix (lit "NaN") s) as [r5|] eqn:E5.
  { intros [= <- <-]. apply strip_prefix_length in E5. cbn in E5. lia. }
  destruct (strip_prefix (lit "Infinity") s) as [r6|] eqn:E6.
  { intros [= <- <-]. apply strip_prefix_length in E6. cbn in E6. lia. }
  destruct (strip_prefix (lit "-Infinity") s) as [r7|] eqn:E7; [|discriminate].
  intros [= <- <-]. apply strip_prefix_length in E7. cbn in E7. lia.
Qed.

Lemma scanstring_length (n : nat) :
  forall (s acc x r : str),
    length s <= n -> scanstring s acc = Some (x, r) -> length r < length s.
Proof.
  induction n as [|n IH]; intros s acc x r Hn; destruct s as [|c t];
    try discriminate; [simpl in Hn; lia|].
  cbn [scanstring]. simpl in Hn.
  destruct (c =? 34)%N; [intros [= <- <-]; simpl; lia|].
  destruct (c <? 32)%N; [discriminate|].
  destruct (negb (c =? 92)%N).
  { intros Hs. apply IH in Hs; simpl; lia. }
  destruct t as [|e t1]; [discriminate|].
  destruct (negb (e =? 117)%N).
  { destruct (backslash e); [|discriminate].
    intros Hs. apply IH in Hs; simpl in *; lia. }
  destruct t1 as [|a [|b [|c1 [|d t2]]]]; try discriminate.
  destruct (decode_uXXXX a b c1 d) as [uni|]; [|discriminate].
  assert (Hplain : forall acc', scanstring t2 acc' = Some (x, r) ->
                                length r < length (c :: e :: a :: b :: c1 :: d :: t2)).
  { intros acc' Hs. apply IH in Hs; simpl in *; lia. }
  destruct (in_range 55296 56319 uni); [|apply Hplain].
  destruct t2 as [|b1 [|u1 [|a2 [|b2 [|c2 [|d2 t3]]]]]]; try apply Hplain.
  destruct ((b1 =? 92)%N && (u1 =? 117)%N); [|apply Hplain].
  destruct (decode_uXXXX a2 b2 c2 d2) as [uni2|]; [|discriminate].
  destruct (in_range 56320 57343 uni2); [|apply Hplain].
  intros Hs. apply IH in Hs; simpl in *; lia.
Qed.

Lemma scan_fuel (n : nat) :
  (forall s v r,
      scan_once n s = Some (v, r) ->
      length r < length s
      /\ forall m, 2 * (length s - length r) - 1 <= m -> scan_once m s = Some (v, r))
  /\ (forall s acc v r,
        parse_elements n s acc = Some (v, r) ->
        length r < length s
        /\ forall m, 2 * (length s - length r) <= m ->
                     parse_elements m s acc = Some (v, r))
  /\ (forall s acc v r,
        parse_members n s acc = Some (v, r) ->
        length r < length s
        /\ forall m, 2 * (length s - length r) <= m ->
                     parse_members m s acc = Some (v, r)).
Proof.
  induction n as [|n (IHs & IHe & IHm)]; [repeat split; discriminate|].
  split; [|split].
  - intros s v r Hs. cbn [scan_once] in Hs. destruct s as [|c t]; [discriminate|].
    destruct (c =? 34)%N eqn:E34.
    { destruct (scanstring t []) as [[x r0]|] eqn:Es; [|discriminate].
      injection Hs as <- <-.
      pose proof (scanstring_length _ _ _ _ _ (Nat.le_refl _) Es) as Hl.
      split; [simpl; lia|]. intros [|m] Hm; [simpl in Hm; lia|].
      cbn [scan_once]. now rewrite E34, Es. }
    destruct (c =? 123)%N eqn:E123.
    { pose proof (skip_ws_length t) as Hw.
      destruct (skip_ws t) as [|c' r0] eqn:Ew; [discriminate|].
      destruct (c' =? 125)%N eqn:E125.
      { injection Hs as <- <-. split; [simpl in *; lia|].
        intros [|m] Hm; [simpl in *; lia|].
        cbn [scan_once]. now rewrite E34, E123, Ew, E125. }
      destruct (c' =? 34)%N eqn:Eq; [|discriminate].
      destruct (IHm _ _ _ _ Hs) as [Hl Hfuel].
      split; [simpl in *; lia|]. intros [|m] Hm; [simpl in *; lia|].
      cbn [scan_once]. rewrite E34, E123, Ew, E125, Eq.
      apply Hfuel. simpl in *. lia. }
    destruct (c =? 91)%N eqn:E91.
    { pose proof (skip_ws_length t) as Hw.
      destruct (skip_ws t) as [|c' r0] eqn:Ew; [discriminate|].
      destruct (c' =? 93)%N eqn:E93.
      { injection Hs as <- <-. split; [simpl in *; lia|].
        intros [|m] Hm; [simpl in *; lia|].
        cbn [scan_once]. now rewrite E34, E123, E91, Ew, E93. }
      destruct (IHe _ _ _ _ Hs) as [Hl Hfuel].
      split; [simpl in *; lia|]. intros [|m] Hm; [simpl in *; lia|].
      cbn [scan_once]. rewrite E34, E123, E91, Ew, E93.
      apply Hfuel. simpl in *. lia. }
    pose proof (scan_scalar_length _ _ _ Hs) as Hl.
    split; [exact Hl|]. intros [|m] Hm; [lia|].
    cbn [scan_once]. now rewrite E34, E123, E91.
  - intros s acc v r Hs. cbn [parse_elements] in Hs.
    destruct (scan_once n s) as [[v1 r1]|] eqn:E1; [|discriminate].
    destruct (IHs _ _ _ E1) as [Hl1 Hf1].
    pose proof (skip_ws_length r1) as Hw.
    destruct (skip_ws r1) as [|c r'] eqn:Ew; [discriminate|].
    destruct (c =? 93)%N eqn:E93.
    { injection Hs as <- <-. split; [simpl in *; lia|].
      intros [|m] Hm; [simpl in *; lia|].
      cbn [parse_elements]. rewrite (Hf1 m) by (simpl in *; lia).
      now rewrite Ew, E93. }
    destruct (c =? 44)%N eqn:E44; [|discriminate].
    pose proof (skip_ws_length r') as Hw'.
    destruct (IHe _ _ _ _ Hs) as [Hl2 Hf2].
    split; [simpl in *; lia|]. intros [|m] Hm; [simpl in *; lia|].
    cbn [parse_elements]. rewrite (Hf1 m) by (simpl in *; lia).
    rewrite Ew, E93, E44. apply Hf2. simpl in *. lia.
  - intros s acc v r Hs. cbn [parse_members] in Hs.
    destruct (scanstring s []) as [[key r0]|] eqn:Ek; [|discriminate].
    pose proof (scanstring_length _ _ _ _ _ (Nat.le_refl _) Ek) as Hk.
    pose proof (skip_ws_length r0) as Hw0.
    destruct (skip_ws r0) as [|c r1] eqn:Ew0; [discriminate|].
    destruct (c =? 58)%N eqn:E58; [|discriminate].
    pose proof (skip_ws_length r1) as Hw1.
    destruct (scan_once n (skip_ws r1)) as [[v1 r2]|] eqn:E1; [|discriminate].
    destruct (IHs _ _ _ E1) as [Hl1 Hf1].
    pose proof (skip_ws_length r2) as Hw2.
    destruct (skip_ws r2) as [|c2 r3] eqn:Ew2; [discriminate|].
    destruct (c2 =? 125)%N eqn:E125.
    { injection Hs as <- <-. split; [simpl in *; lia|].
      intros [|m] Hm; [simpl in *; lia|].
      cbn [parse_members]. rewrite Ek, Ew0, E58.
      rewrite (Hf1 m) by (simpl in *; lia). now rewrite Ew2, E125. }
    destruct (c2 =? 44)%N eqn:E44; [|discriminate].
    pose proof (skip_ws_length r3) as Hw3.
    destruct (skip_ws r3) as [|c3 r4] eqn:Ew3; [discriminate|].
    destruct (c3 =? 34)%N eqn:E34; [|discriminate].
    destruct (IHm _ _ _ _ Hs) as [Hl2 Hf2].
    split; [simpl in *; lia|]. intros [|m] Hm; [simpl in *; lia|].
    cbn [parse_members]. rewrite Ek, Ew0, E58.
    rewrite (Hf1 m) by (simpl in *; lia). rewrite Ew2, E125, E44, Ew3, E34.
    apply Hf2. simpl in *. lia.
Qed.

(** The fuel [loads] gives the scanner is enough: what the scanner finds
    with any amount of fuel, it finds with that amount. *)
Lemma scan_fuel_enough (fuel : nat) (s : str) (v : value) (r : str) :
  scan_once fuel (skip_ws s) = Some (v, r) ->
  scan_once (2 * length s + 2) (skip_ws s) = Some (v, r).
Proof.
  intros Hs. destruct (proj1 (scan_fuel fuel) _ _ _ Hs) as [_ Hfuel].
  apply Hfuel. pose proof (skip_ws_length s). lia.
Qed.

(** [loads] rejects a text only if the scanner, with whatever fuel, fails or
    leaves input behind. *)
Lemma loads_none (s : str) :
  loads s = None ->
  forall fuel v r, scan_once fuel (skip_ws s) = Some (v, r) -> skip_ws r <> [].
Proof.
  unfold loads. intros Hl fuel v r Hs. rewrite (scan_fuel_enough _ _ _ _ Hs) in Hl.
  intros Hr. now rewrite Hr in Hl.
Qed.

End JsonFacts.

Section HeaderFacts.
Import Py.

Lemma parse_header_line_cases acc line :
  parse_header_line acc line =
    if well_formed line
    then (<[(header_of line).1 := (header_of line).2]> acc.1, acc.2)
    else if malformed line then (acc.1, acc.2 ++ [missing_colon_warning line])
    else acc.
Proof.
  unfold parse_header_line, well_formed, malformed, blank, header_of, missing_colon_warning.
  destruct acc as [m w]; simpl.
  destruct (bool_decide (strip line = [])); simpl; [reflexivity|].
  destruct (contains COLON line); simpl; [|reflexivity].
  now destruct (split1 COLON line).
Qed.

Lemma well_formed_not_malformed line : well_formed line = true -> malformed line = false.
Proof.
  unfold well_formed, malformed. destruct (blank line); simpl; [discriminate|].
  now intros ->.
Qed.

Lemma parse_fold_warnings ls acc :
  (fold_left parse_header_line ls acc).2
  = acc.2 ++ map missing_colon_warning (List.filter malformed ls).
Proof.
  revert acc. induction ls as [|line ls IH]; intros acc; simpl.
  - now rewrite app_nil_r.
  - rewrite IH, parse_header_line_cases.
    destruct (well_formed line) eqn:Hw.
    + now rewrite (well_formed_not_malformed _ Hw).
    + destruct (malformed line); simpl; [|reflexivity].
      now rewrite <- app_assoc.
Qed.

Lemma parse_fold_untouched ls acc k :
  (forall line, line ∈ ls -> well_formed line = true -> (header_of line).1 <> k) ->
  (fold_left parse_header_line ls acc).1 !! k = acc.1 !! k.
Proof.
  revert acc. induction ls as [|line ls IH]; intros acc Hk; simpl; [reflexivity|].
  rewrite IH by (intros l Hl; apply Hk; now right).
  rewrite parse_header_line_cases.
  destruct (well_formed line) eqn:Hw; cbn [fst snd].
  - apply lookup_insert_ne. apply Hk; [left | assumption].
  - now destruct (malformed line).
Qed.

Lemma parse_fold_origin ls acc k v :
  (fold_left parse_header_line ls acc).1 !! k = Some v ->
  acc.1 !! k = Some v
  \/ exists line, line ∈ ls /\ well_formed line = true /\ header_of line = (k, v).
Proof.
  revert acc. induction ls as [|line ls IH]; intros acc; simpl; [now left|].
  intros Hk. destruct (IH _ Hk) as [Hacc | [l [Hl [Hw He]]]].
  - rewrite parse_header_line_cases in Hacc.
    destruct (well_formed line) eqn:Hw; cbn [fst snd] in Hacc.
    + destruct (decide ((header_of line).1 = k)) as [Heq|Hne].
      * rewrite Heq, lookup_insert_eq in Hacc. right. exists line.
        split; [left|split; [assumption|]].
        destruct (header_of line) as [k' v']; simpl in *. congruence.
      * rewrite lookup_insert_ne in Hacc by assumption. now left.
    + left. now destruct (malformed line).
  - right. exists l. split; [now right | now split].
Qed.

Lemma parse_fold_last_wins l1 line l2 acc :
  well_formed line = true ->
  (forall l, l ∈ l2 -> well_formed l = true -> (header_of l).1 <> (header_of line).1) ->
  (fold_left parse_header_line (l1 ++ line :: l2) acc).1 !! (header_of line).1
  = Some (header_of line).2.
Proof.
  intros Hw Hlater. rewrite fold_left_app. simpl.
  rewrite parse_fold_untouched by assumption.
  rewrite parse_header_line_cases, Hw. cbn [fst snd]. apply lookup_insert_eq.
Qed.

Lemma parse_fold_present ls acc line :
  line ∈ ls -> well_formed line = true ->
  is_Some ((fold_left parse_header_line ls acc).1 !! (header_of line).1).
Proof.
  revert acc line. induction ls as [|l ls IH]; intros acc line Hin Hw.
  - now apply elem_of_nil in Hin.
  - destruct (decide (Exists (fun l' => well_formed l' = true
                                /\ (header_of l').1 = (header_of line).1) ls))
      as [Hex|Hnex].
    + apply Exists_exists in Hex. destruct Hex as [l' [Hl' [Hw' Hk']]].
      cbn [fold_left]. rewrite <- Hk'. now apply IH.
    + apply elem_of_cons in Hin. destruct Hin as [->|Hin].
      * change (l :: ls) with ([] ++ l :: ls).
        rewrite (parse_fold_last_wins [] l ls acc Hw); [eauto|].
        intros l' Hl' Hw' Hk'. apply Hnex, Exists_exists. eauto.
      * exfalso. apply Hnex, Exists_exists. eauto.
Qed.

End HeaderFacts.

(** ** Submission *)

Section Submit.
Context `{PyFloat}.
Import Py.

(** The item [_queue_request] builds from the form. *)
Lemma queue_request_rejected (self : App) :
  strip (url_entry self) = [] ->
  _queue_request self = with_dialogs (dialogs self ++ [missing_url_error]) self.
Proof. unfold _queue_request. now intros ->. Qed.

Lemma queue_request_accepted (self : App) :
  strip (url_entry self) <> [] ->
  let self' := _queue_request self in
  let item := {| method := upper (method_name (method_var self));
                 url := strip (url_entry self);
                 headers := (_parse_headers (text_get (headers_text self))).1;
                 body := strip (text_get (body_text self));
                 response_status := None; response_time := None;
                 response_preview := [] |} in
  heap self' = heap self ++ [item]
  /\ history self' = history self ++ [length (heap self)]
  /\ request_queue self' = request_queue self ++ [length (heap self)]
  /\ response_queue self' = response_queue self
  /\ dialogs self' = dialogs self ++ (_parse_headers (text_get (headers_text self))).2
  /\ threads self' = match request_queue self with
                     | [] => threads self ++ [AtWhile]
                     | _ => threads self
                     end
  /\ length (history_listbox self') = length (history self').
Proof.
  intros Hurl self' item. subst self' item. unfold _queue_request.
  destruct (strip (url_entry self)) as [|c u] eqn:Eu; [congruence|].
  destruct (_parse_headers (text_get (headers_text self))) as [hs ws].
  destruct self as [hp rq rsq hist mv ue ht bt sv ev rht rbt hl th dl]. fields.
  destruct rq as [|q [|q2 qs]]; cbn [length app Nat.eqb]; fields;
    (repeat split; try reflexivity); now rewrite length_map, length_reverse.
Qed.

(** C3.  A submission with an empty URL is rejected with the Missing URL
    error and leaves the history, the heap and the dispatch queue as they
    were; every accepted submission (the stripped URL is not empty) makes
    the history one longer and puts exactly one record, the new one, on the
    dispatch queue. *)
Theorem submit_validation (self : App) :
  (url_entry self = [] ->
     _queue_request self = with_dialogs (dialogs self ++ [missing_url_error]) self
     /\ history (_queue_request self) = history self
     /\ heap (_queue_request self) = heap self
     /\ request_queue (_queue_request self) = request_queue self
     /\ threads (_queue_request self) = threads self)
  /\ (strip (url_entry self) <> [] ->
     length (history (_queue_request self)) = S (length (history self))
     /\ history (_queue_request self) = history self ++ [length (heap self)]
     /\ request_queue (_queue_request self) = request_queue self ++ [length (heap self)]
     /\ length (heap (_queue_request self)) = S (length (heap self))
     /\ Forall (fun d => d <> missing_url_error)
          (drop (length (dialogs self)) (dialogs (_queue_request self)))).
Proof.
  split.
  - intros Hurl. rewrite queue_request_rejected by now rewrite Hurl.
    repeat split; reflexivity.
  - intros Hurl.
    destruct (queue_request_accepted self Hurl) as (Hh & Hhist & Hq & _ & Hd & _).
    rewrite Hhist, Hq, Hh, Hd, !length_app. cbn [length].
    repeat split; try lia.
    rewrite drop_app_length. unfold _parse_headers.
    rewrite parse_fold_warnings. cbn [fst snd app].
    apply Forall_forall. intros d Hd'. apply list_elem_of_In, in_map_iff in Hd'.
    destruct Hd' as [line [<- _]]. discriminate.
Qed.

(** C10.  A URL made of whitespace only is rejected exactly as an empty one
    (the error dialog and nothing else); an accepted submission stores the
    stripped URL and body, [strip] removing whitespace from both ends and
    nothing else; and of several well-formed header lines with the same
    stripped key the last one gives the value. *)
Theorem submit_normalizes :
  (forall self : App,
     all_space (url_entry self) ->
     _queue_request self = with_dialogs (dialogs self ++ [missing_url_error]) self
     /\ _queue_request (with_form (method_var self) [] (headers_text self) (body_text self) self)
        = with_dialogs (dialogs self ++ [missing_url_error])
            (with_form (method_var self) [] (headers_text self) (body_text self) self))
  /\ (forall self : App,
     strip (url_entry self) <> [] ->
     exists item,
       heap (_queue_request self) = heap self ++ [item]
       /\ last (history (_queue_request self)) = Some (length (heap self))
       /\ url item = strip (url_entry self)
       /\ body item = strip (text_get (body_text self))
       /\ headers item = (_parse_headers (text_get (headers_text self))).1)
  /\ (forall s : str,
     trimmed (strip s)
     /\ exists pre post, s = pre ++ strip s ++ post /\ all_space pre /\ all_space post)
  /\ (forall (raw : str) (l1 : list str) (line : str) (l2 : list str),
     splitlines (strip raw) = l1 ++ line :: l2 ->
     well_formed line = true ->
     (forall l, l ∈ l2 -> well_formed l = true ->
                (header_of l).1 <> (header_of line).1) ->
     (_parse_headers raw).1 !! (header_of line).1 = Some (header_of line).2).
Proof.
  split; [|split; [|split]].
  - intros self Hws. split.
    + apply queue_request_rejected. now apply strip_all_space.
    + exact (queue_request_rejected (with_form _ [] _ _ self) eq_refl).
  - intros self Hurl.
    destruct (queue_request_accepted self Hurl) as (Hh & Hhist & _).
    eexists. split; [exact Hh|]. rewrite Hhist, last_snoc.
    repeat split; reflexivity.
  - intros s. split; [apply strip_trimmed | apply strip_decomp].
  - intros raw l1 line l2 Hls Hw Hlater. unfold _parse_headers. rewrite Hls.
    now apply parse_fold_last_wins.
Qed.

End Submit.

(** ** Header parsing *)

Section Headers.
Context `{PyFloat}.
Import Py.

Lemma parse_headers_example :
  _parse_headers (lines [lit "X-Test: 1"; lit "Bad-Line"; lit "Y: 2"])
  = ({[ lit "X-Test" := lit "1"; lit "Y" := lit "2" ]},
     [missing_colon_warning (lit "Bad-Line")]).
Proof. vm_compute. reflexivity. Qed.

Lemma parse_headers_example_widget :
  _parse_headers (text_get (lines [lit "X-Test: 1"; lit "Bad-Line"; lit "Y: 2"]))
  = ({[ lit "X-Test" := lit "1"; lit "Y" := lit "2" ]},
     [missing_colon_warning (lit "Bad-Line")]).
Proof. vm_compute. reflexivity. Qed.

(** C4.  Of the lines of the stripped text, every line that is not blank
    and has no colon gives one warning and nothing else; every line that is
    not blank and has a colon is cut at its first colon and its stripped key
    is in the mapping; every entry of the mapping comes from such a line.
    The text with the lines [X-Test: 1], [Bad-Line], [Y: 2] gives exactly the
    two headers and one warning for [Bad-Line], and a submission with that
    text in the header field goes through. *)
Theorem parse_headers_spec :
  (forall raw : str,
     (_parse_headers raw).2
     = map missing_colon_warning (List.filter malformed (splitlines (strip raw)))
     /\ (forall line,
           line ∈ splitlines (strip raw) -> well_formed line = true ->
           line = (split1 COLON line).1 ++ COLON :: (split1 COLON line).2
           /\ contains COLON (split1 COLON line).1 = false
           /\ is_Some ((_parse_headers raw).1 !! (header_of line).1))
     /\ (forall k v,
           (_parse_headers raw).1 !! k = Some v ->
           exists line, line ∈ splitlines (strip raw)
                        /\ well_formed line = true /\ header_of line = (k, v)))
  /\ _parse_headers (lines [lit "X-Test: 1"; lit "Bad-Line"; lit "Y: 2"])
     = ({[ lit "X-Test" := lit "1"; lit "Y" := lit "2" ]},
        [missing_colon_warning (lit "Bad-Line")])
  /\ (forall self : App,
        strip (url_entry self) <> [] ->
        headers_text self = lines [lit "X-Test: 1"; lit "Bad-Line"; lit "Y: 2"] ->
        exists item,
          heap (_queue_request self) = heap self ++ [item]
          /\ headers item = {[ lit "X-Test" := lit "1"; lit "Y" := lit "2" ]}
          /\ history (_queue_request self) = history self ++ [length (heap self)]
          /\ request_queue (_queue_request self)
             = request_queue self ++ [length (heap self)]
          /\ dialogs (_queue_request self)
             = dialogs self ++ [missing_colon_warning (lit "Bad-Line")]).
Proof.
  split; [|split].
  - intros raw. unfold _parse_headers. split; [|split].
    + now rewrite parse_fold_warnings.
    + intros line Hin Hw.
      assert (Hc : contains COLON line = true).
      { unfold well_formed in Hw. now apply andb_prop in Hw. }
      destruct (split1_spec COLON line Hc) as [Hs1 Hs2].
      repeat split; [exact Hs1 | exact Hs2 | now apply parse_fold_present].
    + intros k v Hk. apply parse_fold_origin in Hk.
      destruct Hk as [Hk | Hk]; [|exact Hk].
      cbn [fst] in Hk. now rewrite lookup_empty in Hk.
  - exact parse_headers_example.
  - intros self Hurl Htext.
    destruct (queue_request_accepted self Hurl) as (Hh & Hhist & Hq & _ & Hd & _).
    rewrite Htext, parse_headers_example_widget in Hh, Hd.
    eexists. split; [exact Hh|]. repeat split; assumption.
Qed.

End Headers.

(** ** The worker loop *)

Section Worker.
Context `{PyFloat}.
Import Py.

Lemma worker_loop_finish_some (self : App) t r item x elapsed :
  threads self !! t = Some (InRequest r) ->
  heap self !! r = Some item ->
  _worker_loop_finish t x elapsed self
  = Some (with_threads (<[t := AtWhile]> (threads self))
            (with_response_queue
               (response_queue self ++ [(r, (_worker_loop_exchange x elapsed item).2)])
               (with_heap (<[r := (_worker_loop_exchange x elapsed item).1]> (heap self)) self))).
Proof.
  intros Ht Hr. unfold _worker_loop_finish. rewrite Ht, Hr.
  now destruct (_worker_loop_exchange x elapsed item).
Qed.

(** What a raised exception leaves behind, and the next round of the loop. *)
Lemma worker_failure_step (self : App) (t : nat) (r : ref)
    (item : RequestHistoryItem) (exc : str) (elapsed : pyfloat) :
  threads self !! t = Some (InRequest r) ->
  heap self !! r = Some item ->
  exists self',
    _worker_loop_finish t (Raised exc) elapsed self = Some self'
    /\ response_queue self'
       = response_queue self
         ++ [(r, {| res_status := lit "Request failed";
                    res_elapsed := format_2f elapsed ++ lit " s";
                    res_headers := [];
                    res_body := exc |})]
    /\ heap self' !! r
       = Some {| method := method item; url := url item; headers := headers item;
                 body := body item; response_status := None;
                 response_time := Some elapsed; response_preview := exc |}
    /\ threads self' !! t = Some AtWhile
    /\ request_queue self' = request_queue self
    /\ (forall next rest,
          request_queue self = next :: rest ->
          exists s1 s2,
            _worker_loop_test t self' = Some s1 /\ _worker_loop_get t s1 = Some s2
            /\ threads s2 !! t = Some (InRequest next)
            /\ request_queue s2 = rest).
Proof.
  intros Ht Hr. eexists. split; [exact (worker_loop_finish_some self t r item _ elapsed Ht Hr)|].
  pose proof (lookup_lt_Some _ _ _ Ht) as Hlt.
  pose proof (lookup_lt_Some _ _ _ Hr) as Hlr.
  fields. repeat split.
  - now apply list_lookup_insert_eq.
  - now apply list_lookup_insert_eq.
  - intros next rest Hq. unfold _worker_loop_test. fields.
    rewrite list_lookup_insert_eq, Hq by assumption.
    eexists. eexists. split; [reflexivity|].
    unfold _worker_loop_get. fields.
    rewrite list_lookup_insert_eq, Hq by now rewrite length_insert.
    split; [reflexivity|]. fields.
    split; [|reflexivity].
    apply list_lookup_insert_eq. now rewrite !length_insert.
Qed.

(** What a returned response leaves on the record. *)
Lemma worker_success_stores (self : App) (t : nat) (r : ref)
    (item : RequestHistoryItem) (response : Response) (elapsed : pyfloat) :
  threads self !! t = Some (InRequest r) ->
  heap self !! r = Some item ->
  exists self',
    _worker_loop_finish t (Returned response) elapsed self = Some self'
    /\ heap self' !! r
       = Some {| method := method item; url := url item; headers := headers item;
                 body := body item;
                 response_status := Some (status_code response);
                 response_time := Some elapsed;
                 response_preview := replace LF SPACE (slice_to 200 (text response)) |}.
Proof.
  intros Ht Hr. eexists. split; [exact (worker_loop_finish_some self t r item _ elapsed Ht Hr)|].
  pose proof (lookup_lt_Some _ _ _ Hr) as Hlr.
  fields. now apply list_lookup_insert_eq.
Qed.

Lemma format_body_example :
  _format_body (lit "{" ++ dq ++ lit "a" ++ dq ++ lit ":1}")
  = lines [lit "{"; lit "  " ++ dq ++ lit "a" ++ dq ++ lit ": 1"; lit "}"].
Proof. vm_compute. reflexivity. Qed.


End Worker.

(** ** The poll loop *)

Section Polling.
Context `{PyFloat}.
Import Py.

Lemma dataclass_eq_true (a b : RequestHistoryItem) :
  dataclass_eq a b = true <-> a = b.
Proof.
  unfold dataclass_eq. rewrite !andb_true_iff, !bool_decide_eq_true.
  destruct a, b; cbn. split.
  - intros [[[[[[-> ->] ->] ->] ->] ->] ->]. reflexivity.
  - intros [= -> -> -> -> -> -> ->]. repeat split.
Qed.

Lemma items_equal_true (self : App) (a b : ref) :
  items_equal self a b = true
  <-> exists x, heap self !! a = Some x /\ heap self !! b = Some x.
Proof.
  unfold items_equal. split.
  - destruct (heap self !! a) as [x|]; [|discriminate].
    destruct (heap self !! b) as [y|]; [|discriminate].
    intros Heq. apply dataclass_eq_true in Heq. subst y. eauto.
  - intros [x [-> ->]]. now apply dataclass_eq_true.
Qed.

(** C2 (as the code has it).  With a non-empty history, a drained pair
    updates the live panel exactly when the fields of its record equal the
    fields of the last history entry, which is so in particular when the
    record is that entry; otherwise the panel stays as it was.  Either way
    the listbox is refreshed and the record keeps what the worker stored. *)
Theorem poll_body_updates_on_equal_fields (self : App) (item latest : ref)
    (result : Result) :
  last (history self) = Some latest ->
  (items_equal self item latest = true
   <-> exists x, heap self !! item = Some x /\ heap self !! latest = Some x)
  /\ (items_equal self item latest = true ->
      poll_body item result self
      = inl (_refresh_history_listbox (_display_response result self)))
  /\ (items_equal self item latest = false ->
      poll_body item result self = inl (_refresh_history_listbox self))
  /\ (item = latest -> is_Some (heap self !! item) ->
      items_equal self item latest = true)
  /\ (forall self', poll_body item result self = inl self' ->
      heap self' = heap self /\ history self' = history self).
Proof.
  intros Hlast. split; [apply items_equal_true|].
  unfold poll_body. rewrite Hlast. split; [|split; [|split]].
  - now intros ->.
  - now intros ->.
  - intros -> [x Hx]. apply items_equal_true. eauto.
  - intros self' [= <-]. now destruct (items_equal self item latest).
Qed.

(** C9.  With an empty history and a pair waiting, [poll_queue] takes the
    pair off the response queue and fails with [IndexError]: nothing is
    displayed, the listbox is not refreshed, the other pairs stay queued. *)
Theorem poll_fails_on_empty_history (self : App) (item : ref) (result : Result)
    (rest : list (ref * Result)) :
  history self = [] ->
  response_queue self = (item, result) :: rest ->
  poll_queue self = (with_response_queue rest self, Some IndexError).
Proof.
  intros Hh Hq. unfold poll_queue. rewrite Hq. cbn [poll_loop].
  unfold poll_body. fields. now rewrite Hh.
Qed.

End Polling.

(** ** Invariants of the transition system *)

Section Invariants.
Context `{PyFloat}.
Import Py.

Lemma run_invariant (P : App -> Prop) :
  (forall e s s', P s -> step e s = Some s' -> P s') ->
  forall events s s', P s -> run events s = Some s' -> P s'.
Proof.
  intros Hstep events. induction events as [|e events IH]; intros s s' Hs; simpl.
  - now intros [= <-].
  - destruct (step e s) as [s1|] eqn:E; [|discriminate].
    apply IH. eapply Hstep; eassumption.
Qed.

Lemma poll_loop_frame (waiting : list (ref * Result)) (self : App) :
  let self' := (poll_loop waiting self).1 in
  heap self' = heap self /\ request_queue self' = request_queue self
  /\ threads self' = threads self /\ history self' = history self
  /\ (listbox_inv self -> listbox_inv self').
Proof.
  revert self. induction waiting as [|[item result] rest IH]; intros self; cbn [poll_loop].
  - repeat split; auto.
  - unfold poll_body. fields.
    destruct (last (history self)) as [latest|]; [|repeat split; auto].
    match goal with |- context [poll_loop rest ?a] =>
      destruct (IH a) as (Hh & Hq & Ht & Hhist & Hl) end.
    cbn zeta. rewrite Hh, Hq, Ht, Hhist.
    repeat split; try (now destruct (items_equal _ item latest)).
    intros _. apply Hl. unfold listbox_inv.
    destruct (items_equal _ item latest); fields;
      now rewrite length_map, length_reverse.
Qed.

Lemma delete_selected_frame (selection : list nat) (self : App) :
  let self' := (_delete_selected_history selection self).1 in
  heap self' = heap self /\ request_queue self' = request_queue self
  /\ threads self' = threads self
  /\ (listbox_inv self -> listbox_inv self').
Proof.
  unfold _delete_selected_history. destruct selection as [|row rest].
  - repeat split; auto.
  - destruct (list_del _ (history self)) as [h|]; [|repeat split; auto].
    repeat split. intros _. unfold listbox_inv. fields.
    now rewrite length_map, length_reverse.
Qed.

Lemma clear_history_frame (answer : bool) (self : App) :
  let self' := _clear_history answer self in
  heap self' = heap self /\ request_queue self' = request_queue self
  /\ threads self' = threads self
  /\ (listbox_inv self -> listbox_inv self').
Proof.
  unfold _clear_history. destruct answer; repeat split; auto.
Qed.

(** Every handler that changes the history refreshes the listbox. *)
Lemma step_listbox_inv e s s' : listbox_inv s -> step e s = Some s' -> listbox_inv s'.
Proof.
  intros Hs. destruct e as [m u h b| | |sel|ans|t|t|t x el]; cbn [step].
  - now intros [= <-].
  - intros [= <-]. destruct (decide (strip (url_entry s) = [])) as [E|E].
    + now rewrite queue_request_rejected.
    + destruct (queue_request_accepted s E) as (_ & _ & _ & _ & _ & _ & Hl).
      exact Hl.
  - intros [= <-]. now apply poll_loop_frame.
  - destruct (selectable sel s); [|discriminate].
    intros [= <-]. now apply delete_selected_frame.
  - intros [= <-]. now apply clear_history_frame.
  - unfold _worker_loop_test. destruct (threads s !! t) as [[]|]; try discriminate.
    destruct (request_queue s); now intros [= <-].
  - unfold _worker_loop_get. destruct (threads s !! t) as [[]|]; try discriminate.
    destruct (request_queue s); [discriminate|]. now intros [= <-].
  - unfold _worker_loop_finish. destruct (threads s !! t) as [[]|]; try discriminate.
    destruct (heap s !! item); [|discriminate].
    destruct (_worker_loop_exchange x el r). now intros [= <-].
Qed.

Lemma reachable_listbox_inv (self : App) : reachable self -> listbox_inv self.
Proof.
  intros [events Hrun].
  eapply (run_invariant listbox_inv); [exact step_listbox_inv | | exact Hrun].
  reflexivity.
Qed.

End Invariants.

(** ** History handlers *)

Section History.
Context `{PyFloat}.
Import Py.

Lemma list_del_valid {A} (l : list A) (row : nat) :
  row < length l ->
  list_del (Z.of_nat (length l) - 1 - Z.of_nat row) l
  = Some (delete (length l - 1 - row) l).
Proof.
  intros Hrow. unfold list_del.
  rewrite bool_decide_eq_true_2 by lia.
  do 2 f_equal. lia.
Qed.

Lemma list_del_wrap {A} (l : list A) (row : nat) :
  length l <= row < 2 * length l ->
  list_del (Z.of_nat (length l) - 1 - Z.of_nat row) l
  = Some (delete (2 * length l - 1 - row) l).
Proof.
  intros Hrow. unfold list_del.
  rewrite bool_decide_eq_false_2 by lia.
  rewrite bool_decide_eq_true_2 by lia.
  do 2 f_equal. lia.
Qed.

Lemma list_del_far {A} (l : list A) (row : nat) :
  2 * length l <= row ->
  list_del (Z.of_nat (length l) - 1 - Z.of_nat row) l = None.
Proof.
  intros Hrow. unfold list_del.
  rewrite bool_decide_eq_false_2 by lia.
  now rewrite bool_decide_eq_false_2 by lia.
Qed.


End History.

(** ** Each record is written once *)

Section Dispatch.
Context `{PyFloat}.
Import Py.

Lemma omap_insert_perm {A B} (f : A -> option B) (l : list A) (t : nat) (x y : A) :
  l !! t = Some x ->
  option_list (f x) ++ omap f (<[t := y]> l) ≡ₚ option_list (f y) ++ omap f l.
Proof.
  revert t. induction l as [|a l IH]; intros [|t]; try discriminate.
  - intros [= ->]. cbn. destruct (f x), (f y); cbn; try reflexivity.
    apply perm_swap.
  - intros Hl. specialize (IH t Hl). cbn.
    destruct (f a) as [b|]; [|exact IH].
    rewrite <- !Permutation_middle. now apply perm_skip.
Qed.

Lemma in_flight_insert (self : App) (t : nat) (old new : Thread) :
  threads self !! t = Some old ->
  option_list (holding old) ++ omap holding (<[t := new]> (threads self))
  ≡ₚ option_list (holding new) ++ in_flight self.
Proof. apply omap_insert_perm. Qed.

Lemma completed_same (s s' : App) (r : ref) :
  heap s' !! r = heap s !! r -> completed s' r = completed s r.
Proof. unfold completed. now intros ->. Qed.

Lemma completed_unallocated (s : App) (r : ref) :
  length (heap s) <= r -> completed s r = false.
Proof. intros Hr. unfold completed. now rewrite lookup_ge_None_2. Qed.

Lemma pending_not_completed (s : App) (r : ref) : pending s r -> completed s r = false.
Proof.
  intros [item [Hr Ht]]. unfold completed. rewrite Hr.
  apply bool_decide_eq_false_2. intros Hne. now apply Hne.
Qed.

(** Steps that leave the heap alone and only move items between the
    dispatch queue and the threads. *)
Lemma dispatch_frame (e : Event) (s s' : App) :
  heap s' = heap s -> owned s' ≡ₚ owned s ->
  (forall r, writes r e s = false) ->
  dispatch_inv s ->
  dispatch_inv s'
  /\ (forall r, Nat.b2n (completed s' r)
                = Nat.b2n (completed s r) + Nat.b2n (writes r e s))
  /\ (forall r, writes r e s = false -> r < length (heap s) ->
                heap s' !! r = heap s !! r).
Proof.
  intros Hh Ho Hw [Hnd Hp]. split; [|split].
  - unfold dispatch_inv, pending in *. rewrite Ho, Hh. split; [assumption|].
    intros r Hr. apply Hp. now rewrite <- Ho.
  - intros r. rewrite Hw. unfold completed. rewrite Hh. simpl. lia.
  - intros r _ _. now rewrite Hh.
Qed.

Lemma owned_same (s s' : App) :
  request_queue s' = request_queue s -> threads s' = threads s ->
  owned s' ≡ₚ owned s.
Proof. unfold owned, in_flight. now intros -> ->. Qed.

Lemma worker_loop_exchange_time (x : Exchange) (elapsed : pyfloat) (item : RequestHistoryItem) :
  response_time (_worker_loop_exchange x elapsed item).1 = Some elapsed.
Proof. now destruct x. Qed.

Lemma step_dispatch (e : Event) (s s' : App) :
  dispatch_inv s -> step e s = Some s' ->
  dispatch_inv s'
  /\ (forall r, Nat.b2n (completed s' r)
                = Nat.b2n (completed s r) + Nat.b2n (writes r e s))
  /\ (forall r, writes r e s = false -> r < length (heap s) ->
                heap s' !! r = heap s !! r).
Proof.
  intros Hinv. destruct e as [m u h b| | |sel|ans|t|t|t x el]; cbn [step].
  - intros [= <-]. now apply dispatch_frame.
  - intros [= <-]. destruct (decide (strip (url_entry s) = [])) as [E|E].
    + rewrite queue_request_rejected by assumption. now apply dispatch_frame.
    + destruct (queue_request_accepted s E) as (Hh & _ & Hq & _ & _ & Ht & _).
      set (s' := _queue_request s) in *. clearbody s'.
      assert (Ho : owned s' ≡ₚ length (heap s) :: owned s).
      { unfold owned, in_flight. rewrite Hq, Ht.
        destruct (request_queue s); [rewrite omap_app; cbn; rewrite app_nil_r|];
          solve_Permutation. }
      destruct Hinv as [Hnd Hp].
      assert (Hlt : forall r, r ∈ owned s -> r < length (heap s)).
      { intros r Hr. destruct (Hp r Hr) as [it [Hit _]].
        eapply lookup_lt_Some; eassumption. }
      split; [|split].
      * split.
        -- rewrite Ho. apply NoDup_cons. split; [|assumption].
           intros Hin. apply Hlt in Hin. lia.
        -- intros r Hr. rewrite Ho in Hr. unfold pending. rewrite Hh.
           apply elem_of_cons in Hr. destruct Hr as [->|Hr].
           ++ eexists. split; [apply list_lookup_middle; reflexivity | reflexivity].
           ++ destruct (Hp r Hr) as [it [Hit Hnone]]. exists it.
              split; [|assumption]. rewrite lookup_app_l; [assumption|].
              now apply Hlt.
      * intros r. cbn [writes Nat.b2n]. rewrite Nat.add_0_r. f_equal.
        unfold completed. rewrite Hh.
        destruct (decide (r < length (heap s))) as [Hr|Hr].
        -- now rewrite lookup_app_l.
        -- rewrite (lookup_ge_None_2 (heap s)) by lia.
           destruct (decide (r = length (heap s))) as [->|Hne].
           ++ rewrite list_lookup_middle by reflexivity. reflexivity.
           ++ rewrite lookup_ge_None_2; [reflexivity|].
              rewrite length_app. cbn. lia.
      * intros r _ Hr. rewrite Hh. now apply lookup_app_l.
  - intros [= <-].
    destruct (poll_loop_frame (response_queue s) s) as (Hh & Hq & Ht & _).
    apply dispatch_frame; auto using owned_same.
  - destruct (selectable sel s); [|discriminate]. intros [= <-].
    destruct (delete_selected_frame sel s) as (Hh & Hq & Ht & _).
    apply dispatch_frame; auto using owned_same.
  - intros [= <-].
    destruct (clear_history_frame ans s) as (Hh & Hq & Ht & _).
    apply dispatch_frame; auto using owned_same.
  - unfold _worker_loop_test. destruct (threads s !! t) as [th|] eqn:Et; [|discriminate].
    destruct th; try discriminate.
    pose proof (in_flight_insert s t AtWhile) as Hperm.
    destruct (request_queue s) eqn:Eq; intros [= <-];
      (apply dispatch_frame; [reflexivity| |reflexivity|assumption]);
      unfold owned; fields; rewrite Eq;
      apply Permutation_app_head; unfold in_flight; fields;
      [exact (Hperm Finished Et) | exact (Hperm AtGet Et)].
  - unfold _worker_loop_get. destruct (threads s !! t) as [th|] eqn:Et; [|discriminate].
    destruct th; try discriminate.
    destruct (request_queue s) as [|item rest] eqn:Eq; [discriminate|].
    intros [= <-].
    apply dispatch_frame; [reflexivity| |reflexivity|assumption].
    unfold owned. fields. rewrite Eq. unfold in_flight. fields.
    pose proof (in_flight_insert s t AtGet (InRequest item) Et) as Hperm.
    cbn in Hperm. rewrite Hperm. cbn. now rewrite <- Permutation_middle.
  - unfold _worker_loop_finish. destruct (threads s !! t) as [th|] eqn:Et; [|discriminate].
    destruct th as [| |r0|]; try discriminate.
    destruct (heap s !! r0) as [item|] eqn:Er; [|discriminate].
    pose proof (worker_loop_exchange_time x el item) as Htime.
    destruct (_worker_loop_exchange x el item) as [item' result]. cbn [fst] in Htime.
    intros [= <-].
    pose proof (in_flight_insert s t (InRequest r0) AtWhile Et) as Hperm.
    cbn in Hperm.
    destruct Hinv as [Hnd Hp].
    assert (Ho : owned s ≡ₚ r0 :: request_queue s
                              ++ omap holding (<[t := AtWhile]> (threads s))).
    { unfold owned. rewrite <- Hperm. now rewrite <- Permutation_middle. }
    rewrite Ho in Hnd. apply NoDup_cons in Hnd. destruct Hnd as [Hnotin Hnd].
    pose proof (lookup_lt_Some _ _ _ Er) as Hlt.
    split; [|split].
    * split; [exact Hnd|].
      intros r Hr. unfold owned, in_flight in Hr. fields.
      assert (r <> r0) by (intros ->; contradiction).
      destruct (Hp r) as [it [Hit Hnone]].
      { rewrite Ho. now right. }
      exists it. split; [|assumption]. fields.
      now rewrite list_lookup_insert_ne.
    * intros r. cbn [writes]. rewrite Et. unfold completed. fields.
      destruct (decide (r0 = r)) as [<-|Hne].
      -- rewrite bool_decide_eq_true_2 by reflexivity.
         rewrite list_lookup_insert_eq by assumption. rewrite Er.
         destruct (Hp r0) as [it [Hit Hnone]].
         { rewrite Ho. now left. }
         rewrite Er in Hit. injection Hit as <-.
         rewrite Htime, Hnone. reflexivity.
      -- rewrite bool_decide_eq_false_2 by assumption.
         rewrite list_lookup_insert_ne by assumption. cbn. lia.
    * intros r Hw _. cbn [writes] in Hw. rewrite Et in Hw.
      apply bool_decide_eq_false in Hw. fields.
      now rewrite list_lookup_insert_ne.
Qed.

Lemma run_dispatch (events : list Event) (s s' : App) :
  dispatch_inv s -> run events s = Some s' ->
  dispatch_inv s'
  /\ forall r, Nat.b2n (completed s' r)
               = Nat.b2n (completed s r) + count_writes r events s.
Proof.
  revert s. induction events as [|e events IH]; intros s Hinv; cbn [run count_writes].
  - intros [= <-]. split; [assumption|]. intros r. lia.
  - destruct (step e s) as [s1|] eqn:E; [|discriminate]. intros Hrun.
    destruct (step_dispatch e s s1 Hinv E) as (Hinv1 & Hc & _).
    destruct (IH s1 Hinv1 Hrun) as [Hinv' Hc'].
    split; [assumption|]. intros r. rewrite Hc', Hc.
    destruct (writes r e s); cbn; lia.
Qed.

Lemma dispatch_inv_init : dispatch_inv init.
Proof.
  split; [apply NoDup_nil_2|]. intros r Hr. now apply elem_of_nil in Hr.
Qed.

Lemma reachable_dispatch_inv (self : App) : reachable self -> dispatch_inv self.
Proof.
  intros [events Hrun]. now apply (run_dispatch events init self dispatch_inv_init).
Qed.

Lemma in_flight_pending (self : App) (t : nat) (r : ref) :
  reachable self -> threads self !! t = Some (InRequest r) -> pending self r.
Proof.
  intros Hreach Ht. apply reachable_dispatch_inv in Hreach.
  destruct Hreach as [_ Hp]. apply Hp. unfold owned, in_flight.
  apply elem_of_app. right. apply list_elem_of_omap.
  exists (InRequest r). split; [|reflexivity].
  eapply list_elem_of_lookup_2. exact Ht.
Qed.



End Dispatch.

(** ** Starting worker threads *)

Section Spawning.
Context `{PyFloat}.
Import Py Examples.

Lemma queue_request_spawns_iff (self : App) :
  strip (url_entry self) <> [] ->
  (threads (_queue_request self) = threads self ++ [AtWhile]
   <-> request_queue self = []).
Proof.
  intros Hurl.
  destruct (queue_request_accepted self Hurl) as (_ & _ & _ & _ & _ & Ht & _).
  rewrite Ht. destruct (request_queue self) as [|q qs].
  - split; reflexivity.
  - split; [|discriminate]. intros Heq.
    apply (f_equal length) in Heq. rewrite length_app in Heq. cbn in Heq. lia.
Qed.

(** C1 (what the code does).  An accepted submission starts a worker thread
    exactly when the dispatch queue was empty before its [put].  The record
    a worker is sending is no longer in the queue, so a submission made
    while the only worker sends the first record starts a second worker: two
    threads are alive at once, and the second record is being sent before
    the first one has completed. *)
Theorem second_submission_starts_second_worker :
  (forall self : App,
     strip (url_entry self) <> [] ->
     (threads (_queue_request self) = threads self ++ [AtWhile]
      <-> request_queue self = []))
  /\ (exists self,
        run overlap init = Some self
        /\ threads self = [InRequest 0; AtWhile]
        /\ live_workers self = 2
        /\ request_queue self = [1])
  /\ (exists self,
        run overlap_both_sent init = Some self
        /\ threads self = [InRequest 0; InRequest 1]
        /\ in_flight self = [0; 1]
        /\ completed self 0 = false
        /\ response_queue self = []).
Proof.
  split; [exact queue_request_spawns_iff|]. split.
  - eexists. split; [vm_compute; reflexivity|]. repeat split.
  - eexists. split; [vm_compute; reflexivity|]. repeat split.
Qed.

End Spawning.

(** ** What a step changes *)

Section Effects.
Context `{PyFloat}.
Import Py.

Lemma poll_loop_response (waiting : list (ref * Result)) (self : App) :
  response_queue self = waiting ->
  exists k, response_queue (poll_loop waiting self).1 = drop k waiting.
Proof.
  revert self. induction waiting as [|[item result] rest IH]; intros self Hq.
  - exists 0. exact Hq.
  - cbn [poll_loop]. unfold poll_body. fields.
    destruct (last (history self)) as [latest|]; [|exists 1; reflexivity].
    match goal with |- context [poll_loop rest ?a] => destruct (IH a) as [k Hk] end.
    { now destruct (items_equal _ item latest). }
    exists (S k). exact Hk.
Qed.

Lemma list_del_some {A} (index : Z) (l h : list A) :
  list_del index l = Some h -> exists i, h = delete i l.
Proof.
  unfold list_del. repeat case_bool_decide; intros [= <-]; eauto.
Qed.

Lemma step_effect (e : Event) (s s' : App) : step e s = Some s' -> effect s s'.
Proof.
  destruct e as [m u h b| | |sel|ans|t|t|t x el]; cbn [step].
  - intros [= <-]. now apply eff_none.
  - intros [= <-]. destruct (decide (strip (url_entry s) = [])) as [E|E].
    + rewrite queue_request_rejected by assumption. now apply eff_none.
    + destruct (queue_request_accepted s E) as (Hh & Hhist & Hq & Hr & _ & Ht & _).
      now apply eff_submit.
  - intros [= <-].
    destruct (poll_loop_frame (response_queue s) s) as (Hh & Hq & Ht & Hhist & _).
    destruct (poll_loop_response (response_queue s) s eq_refl) as [k Hk].
    now apply (eff_poll _ _ k).
  - destruct (selectable sel s); [|discriminate]. intros [= <-].
    unfold _delete_selected_history. destruct sel as [|row rest]; [now apply eff_none|].
    destruct (list_del _ (history s)) as [h|] eqn:E; [|now apply eff_none].
    apply list_del_some in E. destruct E as [i ->]. now apply (eff_delete _ _ i).
  - intros [= <-]. destruct ans; [now apply eff_clear | now apply eff_none].
  - unfold _worker_loop_test. destruct (threads s !! t) as [th|] eqn:Et; [|discriminate].
    destruct th; try discriminate.
    destruct (request_queue s) eqn:Eq; intros [= <-];
      (apply (eff_test _ _ t); [assumption|reflexivity|reflexivity| |reflexivity|reflexivity]);
      fields; now rewrite Eq.
  - unfold _worker_loop_get. destruct (threads s !! t) as [th|] eqn:Et; [|discriminate].
    destruct th; try discriminate.
    destruct (request_queue s) as [|item rest] eqn:Eq; [discriminate|].
    intros [= <-]. now apply (eff_get _ _ t item rest).
  - unfold _worker_loop_finish. destruct (threads s !! t) as [th|] eqn:Et; [|discriminate].
    destruct th as [| |r|]; try discriminate.
    destruct (heap s !! r) as [item|] eqn:Er; [|discriminate].
    destruct (_worker_loop_exchange x el item) as [item' result] eqn:Ex.
    intros [= <-].
    apply (eff_finish _ _ t r item x el); try assumption; try reflexivity;
      fields; now rewrite Ex.
Qed.

Lemma run_app (ev1 ev2 : list Event) (s : App) :
  run (ev1 ++ ev2) s = match run ev1 s with Some s1 => run ev2 s1 | None => None end.
Proof.
  revert s. induction ev1 as [|e ev1 IH]; intros s; cbn [run app]; [reflexivity|].
  destruct (step e s); [apply IH | reflexivity].
Qed.

Lemma reachable_init : reachable init.
Proof. now exists []. Qed.

Lemma reachable_step (e : Event) (s s' : App) :
  reachable s -> step e s = Some s' -> reachable s'.
Proof.
  intros [events Hrun] Hstep. exists (events ++ [e]).
  rewrite run_app, Hrun. cbn [run]. now rewrite Hstep.
Qed.

(** Induction over the reachable states. *)
Lemma reachable_invariant (Q : App -> Prop) :
  Q init ->
  (forall s s', reachable s -> Q s -> effect s s' -> Q s') ->
  forall s, reachable s -> Q s.
Proof.
  intros Hinit Hstep s [events Hrun].
  apply (run_invariant (fun s => reachable s /\ Q s)) with (s' := s) in Hrun.
  - apply Hrun.
  - intros e s0 s1 [Hr Hq] He. split; [eapply reachable_step; eassumption|].
    eapply Hstep; [exact Hr | exact Hq | eapply step_effect; exact He].
  - split; [apply reachable_init | exact Hinit].
Qed.

End Effects.

(** ** Order of the history and of the dispatch queue *)

Section Order.
Context `{PyFloat}.
Import Py.

Lemma effect_heap_length (s s' : App) :
  effect s s' ->
  length (heap s') = length (heap s)
  \/ (heap s' = heap s ++ [new_record s]
      /\ request_queue s' = request_queue s ++ [length (heap s)]
      /\ history s' = history s ++ [length (heap s)]).
Proof.
  intros [Hh| _ Hh Hq _ _ Hhist|k Hh|i Hh|Hh|t _ Hh|t item rest _ _ Hh
          |t r item x el _ _ Hh]; try (left; now rewrite Hh).
  - right. now repeat split.
  - left. rewrite Hh. apply length_insert.
Qed.

Lemma reachable_history_inv (s : App) : reachable s -> history_inv s.
Proof.
  apply reachable_invariant; [apply sublist_nil_l|].
  clear s. intros s s' _ Hinv Heff. unfold history_inv in *.
  destruct Heff as [Hh _ _ _ Hhist| _ Hh _ _ _ Hhist|k Hh _ _ _ Hhist
                    |i Hh _ _ _ Hhist|Hh _ _ _ Hhist|t _ Hh _ _ _ Hhist
                    |t item rest _ _ Hh _ _ _ Hhist
                    |t r item x el _ _ Hh _ _ _ Hhist];
    rewrite Hhist, Hh; try exact Hinv.
  - rewrite length_app. cbn [length]. rewrite Nat.add_1_r, seq_S.
    now apply sublist_app.
  - etransitivity; [apply sublist_delete | exact Hinv].
  - apply sublist_nil_l.
  - now rewrite length_insert.
Qed.

Lemma reachable_queue_inv (s : App) : reachable s -> queue_inv s.
Proof.
  apply reachable_invariant; [split; [cbn; lia | reflexivity]|].
  clear s. intros s s' _ [Hle Hseq] Heff. unfold queue_inv in *.
  destruct Heff as [Hh Hq _ _ _| _ Hh Hq _ _ _|k Hh Hq _ _ _
                    |i Hh Hq _ _ _|Hh Hq _ _ _|t _ Hh Hq _ _ _
                    |t item rest _ Hrq Hh Hq _ _ _
                    |t r item x el _ _ Hh Hq _ _ _];
    rewrite Hh, Hq; try (split; assumption).
  - rewrite !length_app. cbn [length]. split; [lia|].
    rewrite (Nat.add_1_r (length (request_queue s))), seq_S.
    replace (length (heap s) + 1 - S (length (request_queue s)))
      with (length (heap s) - length (request_queue s)) by lia.
    rewrite <- Hseq. do 2 f_equal. lia.
  - rewrite Hrq in Hle, Hseq. cbn [length] in *. split; [lia|].
    cbn [seq] in Hseq. injection Hseq as _ Hrest.
    rewrite Hrest at 1. f_equal. lia.
  - rewrite length_insert. now split.
Qed.

Lemma reachable_history_NoDup (s : App) : reachable s -> NoDup (history s).
Proof.
  intros Hreach. eapply sublist_NoDup; [apply NoDup_seq|].
  exact (reachable_history_inv s Hreach).
Qed.

Lemma reachable_history_allocated (s : App) (r : ref) :
  reachable s -> r ∈ history s -> r < length (heap s).
Proof.
  intros Hreach Hr.
  pose proof (elem_of_sublist _ _ _ Hr (reachable_history_inv s Hreach)) as Hs.
  apply elem_of_seq in Hs. lia.
Qed.

Lemma sublist_seq_increasing (l : list nat) (a n : nat) :
  l `sublist_of` seq a n ->
  forall i j x y, i < j -> l !! i = Some x -> l !! j = Some y -> x < y.
Proof.
  revert l a. induction n as [|n IH]; intros l a Hsub i j x y Hij Hi Hj.
  - apply sublist_nil_r in Hsub. subst l. discriminate.
  - cbn [seq] in Hsub. apply sublist_cons_r in Hsub.
    destruct Hsub as [Hsub | (l' & -> & Hsub)].
    + eapply IH; eassumption.
    + destruct i as [|i], j as [|j]; try lia; cbn in Hi, Hj.
      * injection Hi as <-.
        assert (Hy : y ∈ seq (S a) n).
        { eapply elem_of_sublist; [|exact Hsub]. eapply list_elem_of_lookup_2; eassumption. }
        apply elem_of_seq in Hy. lia.
      * eapply (IH l' (S a) Hsub i j); [lia | eassumption | eassumption].
Qed.

End Order.

(** ** Well-formed headers and records *)

Section Records.
Context `{PyFloat}.
Import Py.

Lemma splitlines_from_no_linebreak (n : nat) :
  forall (s cur : str),
    length s <= n -> no_linebreak cur ->
    forall line, line ∈ splitlines_from cur s -> no_linebreak line.
Proof.
  induction n as [|n IH]; intros s cur Hn Hcur line Hin.
  - destruct s; [|cbn in Hn; lia]. cbn in Hin. destruct cur as [|c cur].
    + now apply elem_of_nil in Hin.
    + apply list_elem_of_singleton in Hin. subst line. now apply Forall_rev.
  - destruct s as [|c t].
    { cbn in Hin. destruct cur as [|c cur].
      + now apply elem_of_nil in Hin.
      + apply list_elem_of_singleton in Hin. subst line. now apply Forall_rev. }
    cbn [length] in Hn. cbn [splitlines_from] in Hin.
    assert (Hnil : no_linebreak []) by constructor.
    assert (Hrev : no_linebreak (rev cur)) by now apply Forall_rev.
    destruct (c =? 13)%N.
    + destruct t as [|c' t'].
      * apply elem_of_cons in Hin. destruct Hin as [->|Hin]; [exact Hrev|].
        now apply elem_of_nil in Hin.
      * destruct (c' =? 10)%N; apply elem_of_cons in Hin;
          destruct Hin as [->|Hin]; try exact Hrev.
        -- apply (IH t' [] ltac:(cbn [length] in Hn; lia) Hnil _ Hin).
        -- apply (IH (c' :: t') [] ltac:(lia) Hnil _ Hin).
    + destruct (is_linebreak c) eqn:Ec.
      * apply elem_of_cons in Hin. destruct Hin as [->|Hin]; [exact Hrev|].
        apply (IH t [] ltac:(lia) Hnil _ Hin).
      * apply (IH t (c :: cur) ltac:(lia)); [now constructor | exact Hin].
Qed.

(** No line that [splitlines] yields holds a line boundary. *)
Lemma splitlines_no_linebreak (s line : str) :
  line ∈ splitlines s -> no_linebreak line.
Proof.
  apply (splitlines_from_no_linebreak (length s) s []); [lia | constructor].
Qed.

Lemma strip_Forall (P : N -> Prop) (s : str) : Forall P s -> Forall P (strip s).
Proof.
  intros Hs. destruct (strip_decomp s) as (pre & post & Heq & _).
  rewrite Heq in Hs. apply Forall_app in Hs. destruct Hs as [_ Hs].
  apply Forall_app in Hs. apply Hs.
Qed.

Lemma contains_false (c : N) (s : str) :
  contains c s = false <-> Forall (fun x => x <> c) s.
Proof.
  unfold contains. induction s as [|x s IH]; cbn.
  - split; [constructor | reflexivity].
  - rewrite orb_false_iff, IH, Forall_cons. rewrite N.eqb_neq.
    split; intros [H1 H2]; split; congruence.
Qed.

Lemma header_of_ok (line : str) :
  no_linebreak line -> contains COLON line = true ->
  trimmed (header_of line).1 /\ trimmed (header_of line).2
  /\ contains COLON (header_of line).1 = false
  /\ no_linebreak (header_of line).1 /\ no_linebreak (header_of line).2.
Proof.
  intros Hline Hcolon. destruct (split1_spec COLON line Hcolon) as [Heq Hk].
  unfold header_of. cbn [fst snd].
  rewrite Heq in Hline. apply Forall_app in Hline. destruct Hline as [Hlk Hlv].
  apply Forall_cons in Hlv. destruct Hlv as [_ Hlv].
  split; [apply strip_trimmed|]. split; [apply strip_trimmed|].
  split; [|split; now apply strip_Forall].
  apply contains_false, strip_Forall, contains_false. exact Hk.
Qed.

Lemma well_formed_colon (line : str) : well_formed line = true -> contains COLON line = true.
Proof. unfold well_formed. now intros [_ ?]%andb_prop. Qed.

Lemma parse_headers_ok (raw : str) : headers_ok (_parse_headers raw).1.
Proof.
  intros k v Hk. unfold _parse_headers in Hk. apply parse_fold_origin in Hk.
  destruct Hk as [Hk | (line & Hin & Hw & Hhead)].
  - cbn [fst] in Hk. now rewrite lookup_empty in Hk.
  - pose proof (header_of_ok line (splitlines_no_linebreak _ _ Hin)
                  (well_formed_colon _ Hw)) as Hok.
    rewrite Hhead in Hok. exact Hok.
Qed.

Lemma upper_method_name (m : Method) : upper (method_name m) = method_name m.
Proof. destruct m; vm_compute; reflexivity. Qed.

Lemma new_record_ok (s : App) : strip (url_entry s) <> [] -> record_ok (new_record s).
Proof.
  intros Hurl. unfold record_ok, new_record. cbn.
  split; [exact Hurl|]. split; [apply strip_trimmed|]. split; [apply strip_trimmed|].
  split; [exists (method_var s); apply upper_method_name|].
  split; [apply parse_headers_ok | now split].
Qed.

Lemma exchange_record_ok (x : Exchange) (elapsed : pyfloat) (item : RequestHistoryItem) :
  record_ok item -> record_ok (_worker_loop_exchange x elapsed item).1.
Proof.
  intros (Hu & Htu & Htb & Hm & Hh & _).
  unfold record_ok.
  destruct x; cbn [_worker_loop_exchange fst method url body headers
                   response_time response_status response_preview];
    (split; [exact Hu|]; split; [exact Htu|]; split; [exact Htb|];
     split; [exact Hm|]; split; [exact Hh|]; discriminate).
Qed.

Lemma reachable_records_ok (s : App) : reachable s -> records_ok s.
Proof.
  apply reachable_invariant.
  { intros r item Hr. discriminate. }
  clear s. intros s s' _ Hinv Heff r0 it Hit.
  destruct Heff as [Hh _ _ _ _|Hurl Hh _ _ _ _|k Hh _ _ _ _
                    |i Hh _ _ _ _|Hh _ _ _ _|t _ Hh _ _ _ _
                    |t item rest _ _ Hh _ _ _ _
                    |t r item x el _ Hr Hh _ _ _ _];
    rewrite Hh in Hit; try (eapply Hinv; exact Hit).
  - apply lookup_app_Some in Hit. destruct Hit as [Hit | [_ Hit]].
    + eapply Hinv; exact Hit.
    + apply list_lookup_singleton_Some in Hit. destruct Hit as [_ <-].
      now apply new_record_ok.
  - destruct (decide (r = r0)) as [->|Hne].
    + rewrite list_lookup_insert_eq in Hit by (eapply lookup_lt_Some; exact Hr).
      injection Hit as <-. apply exchange_record_ok. eapply Hinv; exact Hr.
    + rewrite list_lookup_insert_ne in Hit by assumption. eapply Hinv; exact Hit.
Qed.

End Records.

(** ** No record is lost, no outcome is published twice *)

Section Conservation.
Context `{PyFloat}.
Import Py.

Lemma effect_owned (s s' : App) :
  effect s s' ->
  (heap s' = heap s /\ owned s' ≡ₚ owned s
   /\ exists k, response_queue s' = drop k (response_queue s))
  \/ (heap s' = heap s ++ [new_record s]
      /\ owned s' ≡ₚ length (heap s) :: owned s
      /\ response_queue s' = response_queue s)
  \/ (exists r item item' result,
        heap s !! r = Some item /\ heap s' = <[r := item']> (heap s)
        /\ response_time item' <> None
        /\ r :: owned s' ≡ₚ owned s
        /\ response_queue s' = response_queue s ++ [(r, result)]).
Proof.
  intros [Hh Hq Ht Hr _|_ Hh Hq Ht Hr _|k Hh Hq Ht Hr _
          |i Hh Hq Ht Hr _|Hh Hq Ht Hr _|t Hth Hh Hq Ht Hr _
          |t item rest Hth Hrq Hh Hq Ht Hr _
          |t r item x el Hth Hit Hh Hq Ht Hr _].
  - left. split; [assumption|]. split; [now apply owned_same|]. now exists 0.
  - right; left. split; [assumption|]. split; [|assumption].
    unfold owned, in_flight. rewrite Hq, Ht.
    destruct (request_queue s); [rewrite omap_app; cbn; rewrite app_nil_r|];
      solve_Permutation.
  - left. split; [assumption|]. split; [now apply owned_same|]. now exists k.
  - left. split; [assumption|]. split; [now apply owned_same|]. now exists 0.
  - left. split; [assumption|]. split; [now apply owned_same|]. now exists 0.
  - left. split; [assumption|]. split; [|now exists 0].
    unfold owned, in_flight. rewrite Hq, Ht. apply Permutation_app_head.
    pose proof (in_flight_insert s t AtWhile) as Hperm.
    destruct (request_queue s); [exact (Hperm Finished Hth) | exact (Hperm AtGet Hth)].
  - left. split; [assumption|]. split; [|now exists 0].
    unfold owned, in_flight. rewrite Hq, Ht, Hrq.
    pose proof (in_flight_insert s t AtGet (InRequest item) Hth) as Hperm.
    cbn in Hperm. rewrite Hperm. cbn. now rewrite <- Permutation_middle.
  - right; right. exists r, item, (_worker_loop_exchange x el item).1,
      (_worker_loop_exchange x el item).2.
    split; [assumption|]. split; [assumption|].
    split; [rewrite worker_loop_exchange_time; discriminate|]. split; [|assumption].
    pose proof (in_flight_insert s t (InRequest r) AtWhile Hth) as Hperm.
    cbn in Hperm. unfold owned, in_flight. rewrite Hq, Ht, <- Hperm.
    now rewrite <- Permutation_middle.
Qed.

Lemma completed_allocated (s : App) (r : ref) :
  completed s r = true -> r < length (heap s).
Proof.
  unfold completed. destruct (heap s !! r) eqn:E; [|discriminate].
  intros _. eapply lookup_lt_Some. exact E.
Qed.

Lemma owned_allocated (s : App) (r : ref) :
  dispatch_inv s -> r ∈ owned s -> r < length (heap s).
Proof.
  intros [_ Hp] Hr. destruct (Hp r Hr) as [item [Hit _]].
  eapply lookup_lt_Some. exact Hit.
Qed.

Lemma completed_insert (s : App) (r r0 : ref) (item' : RequestHistoryItem) :
  completed s r = true ->
  response_time item' <> None ->
  match <[r0 := item']> (heap s) !! r with
  | Some item => bool_decide (response_time item <> None)
  | None => false
  end = true.
Proof.
  intros Hc Ht. pose proof (completed_allocated s r Hc) as Hlt.
  destruct (decide (r0 = r)) as [->|Hne].
  - rewrite list_lookup_insert_eq by assumption. now apply bool_decide_eq_true_2.
  - rewrite list_lookup_insert_ne by assumption. exact Hc.
Qed.

Lemma reachable_conservation (s : App) : reachable s -> conservation s.
Proof.
  apply reachable_invariant.
  { intros r Hr. cbn in Hr. lia. }
  clear s. intros s s' Hreach Hinv Heff r Hr.
  pose proof (reachable_dispatch_inv s Hreach) as Hd.
  destruct (effect_owned s s' Heff)
    as [(Hh & Ho & _)|[(Hh & Ho & _)|(r0 & item & item' & res & Hit & Hh & Htime & Ho & _)]].
  - rewrite Hh in Hr. destruct (Hinv r Hr) as [Hin|Hc].
    + left. now rewrite Ho.
    + right. unfold completed in *. now rewrite Hh.
  - rewrite Hh, length_app in Hr. cbn [length] in Hr.
    destruct (decide (r = length (heap s))) as [->|Hne].
    + left. rewrite Ho. now left.
    + destruct (Hinv r ltac:(lia)) as [Hin|Hc].
      * left. rewrite Ho. now right.
      * right. unfold completed in *. rewrite Hh, lookup_app_l by lia. exact Hc.
  - rewrite Hh, length_insert in Hr.
    destruct (decide (r = r0)) as [->|Hne].
    + right. unfold completed. rewrite Hh, list_lookup_insert_eq by assumption.
      now apply bool_decide_eq_true_2.
    + destruct (Hinv r Hr) as [Hin|Hc].
      * left. rewrite <- Ho in Hin. apply elem_of_cons in Hin.
        destruct Hin as [?|Hin]; [congruence | exact Hin].
      * right. unfold completed in *. rewrite Hh, list_lookup_insert_ne by congruence.
        exact Hc.
Qed.

Lemma reachable_response_inv (s : App) : reachable s -> response_inv s.
Proof.
  apply reachable_invariant.
  { split; [apply NoDup_nil_2|]. intros p Hp. now apply elem_of_nil in Hp. }
  clear s. intros s s' Hreach [Hnd Hc] Heff.
  pose proof (reachable_dispatch_inv s Hreach) as Hd.
  destruct (effect_owned s s' Heff)
    as [(Hh & _ & k & Hr)|[(Hh & _ & Hr)|(r0 & item & item' & res & Hit & Hh & Htime & Ho & Hr)]].
  - split.
    + rewrite Hr. eapply sublist_NoDup; [exact Hnd|].
      apply fmap_sublist, sublist_drop.
    + intros p Hp. rewrite Hr in Hp.
      pose proof (elem_of_sublist _ _ _ Hp (sublist_drop _ _)) as Hp'.
      unfold completed. rewrite Hh. now apply Hc.
  - split; [now rewrite Hr|]. intros p Hp. rewrite Hr in Hp.
    specialize (Hc p Hp). pose proof (completed_allocated _ _ Hc).
    unfold completed in *. now rewrite Hh, lookup_app_l.
  - assert (Hpend : pending s r0).
    { destruct Hd as [_ Hp]. apply Hp. rewrite <- Ho. now left. }
    split.
    + rewrite Hr, fmap_app. apply NoDup_app. split; [exact Hnd|]. split.
      * intros r Hin Hin'. cbn in Hin'. apply list_elem_of_singleton in Hin'. subst r.
        apply list_elem_of_fmap in Hin. destruct Hin as (p & Hp1 & Hp2).
        specialize (Hc p Hp2). rewrite <- Hp1 in Hc.
        rewrite (pending_not_completed _ _ Hpend) in Hc. discriminate.
      * cbn. apply NoDup_singleton.
    + intros p Hp. rewrite Hr in Hp. apply elem_of_app in Hp.
      unfold completed. rewrite Hh. destruct Hp as [Hp|Hp].
      * apply (completed_insert s); [now apply Hc | exact Htime].
      * apply list_elem_of_singleton in Hp. subst p. cbn [fst].
        rewrite list_lookup_insert_eq by (eapply lookup_lt_Some; exact Hit).
        now apply bool_decide_eq_true_2.
Qed.

Lemma reachable_served (s : App) : reachable s -> served s.
Proof.
  apply reachable_invariant.
  { intros Hq. now destruct Hq. }
  clear s. intros s s' _ Hinv Heff Hne. unfold served in Hinv.
  destruct Heff as [_ Hq Ht _ _|_ _ Hq Ht _ _|k _ Hq Ht _ _
                    |i _ Hq Ht _ _|_ Hq Ht _ _|t Hth _ Hq Ht _ _
                    |t item rest Hth Hrq _ Hq Ht _ _
                    |t r item x el Hth _ _ Hq Ht _ _]; rewrite Ht.
  - apply Hinv. now rewrite <- Hq.
  - destruct (request_queue s) eqn:E.
    + exists AtWhile. split; [|reflexivity]. apply elem_of_app. right. now left.
    + apply Hinv. discriminate.
  - apply Hinv. now rewrite <- Hq.
  - apply Hinv. now rewrite <- Hq.
  - apply Hinv. now rewrite <- Hq.
  - rewrite Hq in Hne. destruct (request_queue s); [now destruct Hne|].
    exists AtGet. split; [|reflexivity].
    eapply list_elem_of_lookup_2. apply list_lookup_insert_eq.
    eapply lookup_lt_Some. exact Hth.
  - exists (InRequest item). split; [|reflexivity].
    eapply list_elem_of_lookup_2. apply list_lookup_insert_eq.
    eapply lookup_lt_Some. exact Hth.
  - exists AtWhile. split; [|reflexivity].
    eapply list_elem_of_lookup_2. apply list_lookup_insert_eq.
    eapply lookup_lt_Some. exact Hth.
Qed.

Lemma reachable_thread_count (s : App) :
  reachable s -> length (threads s) <= length (heap s).
Proof.
  apply (reachable_invariant (fun s => length (threads s) <= length (heap s)));
    [cbn; lia|].
  clear s. intros s s' _ Hinv Heff.
  destruct Heff as [Hh _ Ht _ _|_ Hh _ Ht _ _|k Hh _ Ht _ _
                    |i Hh _ Ht _ _|Hh _ Ht _ _|t _ Hh _ Ht _ _
                    |t item rest _ _ Hh _ Ht _ _
                    |t r item x el _ _ Hh _ Ht _ _];
    rewrite Hh, Ht, ?length_insert, ?length_app; try assumption.
  destruct (request_queue s); rewrite ?length_app; cbn [length]; lia.
Qed.

End Conservation.

(** ** Invariants of the reachable states *)

Section Reachable.
Context `{PyFloat}.
Import Py.

(** X1.  In every reachable state the history lists addresses of records in
    the order of their submission: it is a sublist of 0, 1, ..., so it has
    no duplicates, every entry is the address of a record, and an entry that
    stands earlier was submitted earlier. *)
Theorem history_in_submission_order (self : App) :
  reachable self ->
  history self `sublist_of` seq 0 (length (heap self))
  /\ NoDup (history self)
  /\ (forall r, r ∈ history self -> is_Some (heap self !! r))
  /\ (forall i j a b,
        i < j -> history self !! i = Some a -> history self !! j = Some b -> a < b).
Proof.
  intros Hreach. pose proof (reachable_history_inv self Hreach) as Hinv.
  unfold history_inv in Hinv. split; [exact Hinv|]. split; [|split].
  - now apply reachable_history_NoDup.
  - intros r Hr. apply lookup_lt_is_Some. now apply reachable_history_allocated.
  - now apply (sublist_seq_increasing _ 0 (length (heap self))).
Qed.

(** X2.  In every reachable state the dispatch queue holds exactly the most
    recently created records, oldest first; every other record is older
    than every waiting one, and [get] hands out the oldest waiting
    record. *)
Theorem dispatch_queue_is_fifo (self : App) :
  reachable self ->
  request_queue self
  = seq (length (heap self) - length (request_queue self))
        (length (request_queue self))
  /\ (forall r q,
        r < length (heap self) -> r ∉ request_queue self ->
        q ∈ request_queue self -> r < q)
  /\ (forall t,
        threads self !! t = Some AtGet -> request_queue self <> [] ->
        exists self',
          _worker_loop_get t self = Some self'
          /\ threads self' !! t
             = Some (InRequest (length (heap self) - length (request_queue self)))
          /\ request_queue self' = tail (request_queue self)).
Proof.
  intros Hreach. destruct (reachable_queue_inv self Hreach) as [Hle Hseq].
  split; [exact Hseq|]. split.
  - intros r q Hr Hnot Hq. rewrite Hseq in Hnot, Hq.
    rewrite elem_of_seq in Hnot, Hq. lia.
  - intros t Ht Hne. unfold _worker_loop_get. rewrite Ht.
    destruct (request_queue self) as [|item rest] eqn:Eq; [now destruct Hne|].
    eexists. split; [reflexivity|]. fields. split; [|reflexivity].
    cbn [length seq] in Hseq. injection Hseq as Hitem _.
    rewrite list_lookup_insert_eq by (eapply lookup_lt_Some; exact Ht).
    cbn [length]. now rewrite <- Hitem.
Qed.


(** X4.  In every reachable state the response queue holds at most one pair
    per record, and only for records whose outcome has been stored and that
    no thread holds any more. *)
Theorem outcome_published_once (self : App) :
  reachable self ->
  NoDup (response_queue self).*1
  /\ (forall r result,
        (r, result) ∈ response_queue self ->
        completed self r = true /\ r ∉ request_queue self ++ in_flight self).
Proof.
  intros Hreach. destruct (reachable_response_inv self Hreach) as [Hnd Hc].
  pose proof (reachable_dispatch_inv self Hreach) as Hd.
  split; [exact Hnd|]. intros r result Hp.
  pose proof (Hc _ Hp) as Hcr. cbn [fst] in Hcr. split; [exact Hcr|].
  intros Hin. destruct Hd as [_ Hpend].
  rewrite (pending_not_completed _ _ (Hpend r Hin)) in Hcr. discriminate.
Qed.



(** X14.  In every reachable state at most one worker thread has been
    started per record, so the threads alive at once are at most as many as
    the accepted submissions. *)
Theorem one_thread_per_submission (self : App) :
  reachable self ->
  length (threads self) <= length (heap self)
  /\ live_workers self <= length (heap self).
Proof.
  intros Hreach. pose proof (reachable_thread_count self Hreach) as Hle.
  split; [exact Hle|]. unfold live_workers.
  etransitivity; [apply length_filter | exact Hle].
Qed.

End Reachable.

(** ** Draining the response queue *)

Section Draining.
Context `{PyFloat}.
Import Py.

Lemma poll_loop_form (waiting : list (ref * Result)) (self : App) :
  let self' := (poll_loop waiting self).1 in
  method_var self' = method_var self /\ url_entry self' = url_entry self
  /\ headers_text self' = headers_text self /\ body_text self' = body_text self
  /\ dialogs self' = dialogs self.
Proof.
  revert self. induction waiting as [|[item result] rest IH]; intros self; cbn [poll_loop].
  - repeat split.
  - unfold poll_body. fields.
    destruct (last (history self)) as [latest|]; [|repeat split].
    match goal with |- context [poll_loop rest ?a] =>
      destruct (IH a) as (H1 & H2 & H3 & H4 & H5) end.
    cbn zeta. rewrite H1, H2, H3, H4, H5.
    now destruct (items_equal _ item latest).
Qed.

Lemma poll_loop_drains (waiting : list (ref * Result)) (self : App) :
  history self <> [] ->
  (poll_loop waiting self).2 = None
  /\ (waiting <> [] ->
      response_queue (poll_loop waiting self).1 = []
      /\ history_listbox (poll_loop waiting self).1 = labels self).
Proof.
  revert self. induction waiting as [|[item result] rest IH]; intros self Hne;
    cbn [poll_loop].
  - split; [reflexivity|]. intros Hw. now destruct Hw.
  - unfold poll_body. fields.
    destruct (last (history self)) as [latest|] eqn:El.
    2:{ apply last_None in El. contradiction. }
    match goal with |- context [poll_loop rest ?a] =>
      destruct (IH a) as (Hn & Hd);
        [destruct (items_equal _ item latest); exact Hne|];
        assert (Hl : labels a = labels self)
          by (destruct (items_equal _ item latest); reflexivity);
        assert (Hq : response_queue a = rest)
          by (destruct (items_equal _ item latest); reflexivity);
        assert (Hb : history_listbox a = labels self)
          by (destruct (items_equal _ item latest); reflexivity)
    end.
    split; [exact Hn|]. intros _.
    destruct rest as [|p rest'].
    + cbn [poll_loop]. now split.
    + destruct Hd as [Hd1 Hd2]; [discriminate|]. rewrite Hd2, Hl. now split.
Qed.

(** X6.  [poll_queue] with an empty response queue changes nothing.  With a
    non-empty history it never fails and leaves the response queue empty,
    and when it drained a pair the listbox shows the labels of the current
    history, most recent first.  It never touches the records, the history,
    the dispatch queue, the threads, the form or the dialogs. *)
Theorem poll_queue_drains (self : App) :
  (response_queue self = [] -> poll_queue self = (self, None))
  /\ (history self <> [] ->
      (poll_queue self).2 = None
      /\ response_queue (poll_queue self).1 = []
      /\ (response_queue self <> [] ->
          history_listbox (poll_queue self).1 = labels self))
  /\ (heap (poll_queue self).1 = heap self
      /\ history (poll_queue self).1 = history self
      /\ request_queue (poll_queue self).1 = request_queue self
      /\ threads (poll_queue self).1 = threads self
      /\ dialogs (poll_queue self).1 = dialogs self
      /\ url_entry (poll_queue self).1 = url_entry self
      /\ headers_text (poll_queue self).1 = headers_text self
      /\ body_text (poll_queue self).1 = body_text self
      /\ method_var (poll_queue self).1 = method_var self).
Proof.
  unfold poll_queue. split; [|split].
  - now intros ->.
  - intros Hne. destruct (poll_loop_drains (response_queue self) self Hne) as [Hn Hd].
    split; [exact Hn|].
    destruct (response_queue self) as [|p rest] eqn:Eq.
    + cbn [poll_loop fst]. split; [exact Eq|]. intros Hw. now destruct Hw.
    + destruct Hd as [Hd1 Hd2]; [discriminate|]. now split.
  - destruct (poll_loop_frame (response_queue self) self) as (H1 & H2 & H3 & H4 & _).
    destruct (poll_loop_form (response_queue self) self) as (H5 & H6 & H7 & H8 & H9).
    now repeat split.
Qed.

Lemma items_equal_heap (a b : App) (x y : ref) :
  heap a = heap b -> items_equal a x y = items_equal b x y.
Proof. unfold items_equal. now intros ->. Qed.

Lemma poll_loop_panel (latest : ref) (waiting : list (ref * Result)) (self : App) :
  last (history self) = Some latest ->
  match last_shown self latest waiting with
  | Some result => shows (poll_loop waiting self).1 result
  | None => same_panel (poll_loop waiting self).1 self
  end.
Proof.
  revert self. induction waiting as [|[item result] rest IH]; intros self Hl.
  - cbn. now repeat split.
  - cbn [poll_loop]. unfold poll_body. fields. rewrite Hl.
    unfold last_shown in *. cbn [List.filter fst].
    change (items_equal (with_response_queue rest self) item latest)
      with (items_equal self item latest).
    destruct (items_equal self item latest) eqn:E.
    + match goal with |- context [poll_loop rest ?a] =>
        specialize (IH a Hl);
          rewrite (List.filter_ext _ (fun p => items_equal self p.1 latest)) in IH
            by (intros p; now apply items_equal_heap)
      end.
      rewrite last_cons.
      destruct (last (List.filter _ rest)) as [q|]; cbn [fmap option_fmap option_map] in *.
      * exact IH.
      * destruct IH as (H1 & H2 & H3 & H4). unfold shows. cbn [snd].
        rewrite H1, H2, H3, H4. now repeat split.
    + match goal with |- context [poll_loop rest ?a] =>
        specialize (IH a Hl);
          rewrite (List.filter_ext _ (fun p => items_equal self p.1 latest)) in IH
            by (intros p; now apply items_equal_heap)
      end.
      destruct (last (List.filter _ rest)) as [q|]; cbn [fmap option_fmap option_map] in *.
      * exact IH.
      * destruct IH as (H1 & H2 & H3 & H4). unfold same_panel.
        rewrite H1, H2, H3, H4. now repeat split.
Qed.

(** X7.  After [poll_queue] on a non-empty history the live panel shows the
    result of the last waiting pair whose record equals the latest history
    entry; when no waiting pair has such a record the panel is as it was. *)
Theorem poll_queue_panel (self : App) (latest : ref) :
  last (history self) = Some latest ->
  match last_shown self latest (response_queue self) with
  | Some result => shows (poll_queue self).1 result
  | None => same_panel (poll_queue self).1 self
  end.
Proof. apply poll_loop_panel. Qed.

End Draining.

(** ** The listbox and the history *)

Section Listbox.
Context `{PyFloat}.
Import Py.

Lemma map_delete {A B} (f : A -> B) (l : list A) (i : nat) :
  map f (delete i l) = delete i (map f l).
Proof.
  revert i. induction l as [|x l IH]; intros [|i]; cbn; try reflexivity.
  now rewrite IH.
Qed.

Lemma map_lookup {A B} (f : A -> B) (l : list A) (i : nat) :
  map f l !! i = f <$> l !! i.
Proof.
  revert i. induction l as [|x l IH]; intros [|i]; cbn; try reflexivity. apply IH.
Qed.

Lemma reverse_delete {A} (l : list A) (i : nat) :
  i < length l ->
  reverse (delete i l) = delete (length l - 1 - i) (reverse l).
Proof.
  intros Hi. destruct (lookup_lt_is_Some_2 l i Hi) as [x Hx].
  pose proof (take_drop_middle l i x Hx) as Hl.
  assert (Ha : length (take i l) = i) by (rewrite length_take; lia).
  revert Hl Ha. generalize (take i l) (drop (S i) l). intros a b <- <-.
  rewrite delete_middle, !reverse_app, reverse_cons, <- app_assoc. cbn [app].
  replace (length (a ++ x :: b) - 1 - length a) with (length (reverse b))
    by (rewrite length_reverse, length_app; cbn [length]; lia).
  now rewrite delete_middle.
Qed.

(** X8.  In every reachable state a freshly drawn listbox has one row per
    history entry, most recent first, and deleting the selected row removes
    exactly the record whose label stands in that row: the record leaves
    the history, the other entries keep their order, and the listbox loses
    that row and no other. *)
Theorem delete_removes_selected_row (self : App) (row : nat) (rest : list nat) :
  reachable self ->
  selectable (row :: rest) self = true ->
  history_listbox (_refresh_history_listbox self) = labels self
  /\ exists r,
       history self !! (length (history self) - 1 - row) = Some r
       /\ (labels self !! row
           = Some (from_option display_label [] (heap self !! r)))
       /\ (_delete_selected_history (row :: rest) self).2 = None
       /\ history (_delete_selected_history (row :: rest) self).1
          = delete (length (history self) - 1 - row) (history self)
       /\ (r ∉ history (_delete_selected_history (row :: rest) self).1)
       /\ history_listbox (_delete_selected_history (row :: rest) self).1
          = delete row (labels self)
       /\ labels (_delete_selected_history (row :: rest) self).1
          = delete row (labels self).
Proof.
  intros Hreach Hsel. split; [reflexivity|].
  pose proof (reachable_listbox_inv self Hreach) as Hlb. unfold listbox_inv in Hlb.
  assert (Hrow : row < length (history self)).
  { cbn [selectable forallb] in Hsel. apply andb_prop in Hsel.
    destruct Hsel as [Hsel _]. apply Nat.ltb_lt in Hsel. lia. }
  destruct (lookup_lt_is_Some_2 (history self) (length (history self) - 1 - row))
    as [r Hr]; [lia|].
  exists r. split; [exact Hr|]. split.
  { unfold labels. rewrite map_lookup, reverse_lookup by assumption.
    replace (length (history self) - S row) with (length (history self) - 1 - row)
      by lia.
    now rewrite Hr. }
  unfold _delete_selected_history. rewrite list_del_valid by assumption.
  cbn [fst snd]. split; [reflexivity|]. split; [reflexivity|]. split.
  { pose proof (reachable_history_NoDup self Hreach) as Hnd.
    fields. pose proof (take_drop_middle _ _ _ Hr) as Hl.
    rewrite <- Hl in Hnd. rewrite delete_take_drop.
    apply NoDup_app in Hnd. destruct Hnd as (_ & Hdis & Hnd).
    apply NoDup_cons in Hnd. destruct Hnd as [Hnot _].
    intros Hin. apply elem_of_app in Hin. destruct Hin as [Hin|Hin].
    - apply (Hdis r Hin). now left.
    - contradiction. }
  assert (Hdel : map (fun item => from_option display_label [] (heap self !! item))
                   (reverse (delete (length (history self) - 1 - row) (history self)))
                 = delete row (labels self)).
  { unfold labels. rewrite reverse_delete by lia. rewrite map_delete.
    f_equal. lia. }
  split; exact Hdel.
Qed.

End Listbox.

(** ** More on header parsing *)

Section Headers2.
Context `{PyFloat}.
Import Py.

(** X9.  Whatever the text, every key of the parsed mapping is stripped and
    has no colon, every value is stripped, and neither holds a line
    boundary. *)
Theorem parsed_headers_well_formed (raw : str) (k v : str) :
  (_parse_headers raw).1 !! k = Some v ->
  trimmed k /\ trimmed v /\ contains COLON k = false
  /\ no_linebreak k /\ no_linebreak v.
Proof. apply parse_headers_ok. Qed.

Lemma parse_fold_size (ls : list str) (acc : gmap str str * list Dialog) :
  size (fold_left parse_header_line ls acc).1
  <= size acc.1 + length (List.filter well_formed ls).
Proof.
  revert acc. induction ls as [|line ls IH]; intros acc; cbn [fold_left List.filter].
  - cbn. lia.
  - etransitivity; [apply IH|]. rewrite parse_header_line_cases.
    destruct (well_formed line) eqn:Hw; cbn [fst length].
    + rewrite map_size_insert. destruct (acc.1 !! _); cbn; lia.
    + destruct (malformed line); cbn [fst]; lia.
Qed.

Lemma filter_disjoint_length {A} (f g : A -> bool) (l : list A) :
  (forall x, f x = true -> g x = false) ->
  length (List.filter f l) + length (List.filter g l) <= length l.
Proof.
  intros Hfg. induction l as [|x l IH]; cbn; [lia|].
  destruct (f x) eqn:Ef; [rewrite (Hfg x Ef)|destruct (g x)]; cbn; lia.
Qed.

(** X10.  A text of whitespace only gives no header and no warning.  For
    every text the mapping has at most as many entries as there are
    non-blank lines with a colon, there is exactly one warning per
    non-blank line without one, and entries and warnings together are at
    most as many as the lines. *)
Theorem parse_headers_counts (raw : str) :
  (all_space raw -> _parse_headers raw = (∅, []))
  /\ size (_parse_headers raw).1
     <= length (List.filter well_formed (splitlines (strip raw)))
  /\ length (_parse_headers raw).2
     = length (List.filter malformed (splitlines (strip raw)))
  /\ size (_parse_headers raw).1 + length (_parse_headers raw).2
     <= length (splitlines (strip raw)).
Proof.
  assert (Hsize : size (_parse_headers raw).1
                  <= length (List.filter well_formed (splitlines (strip raw)))).
  { unfold _parse_headers. etransitivity; [apply parse_fold_size|].
    cbn [fst]. rewrite map_size_empty. lia. }
  assert (Hwarn : length (_parse_headers raw).2
                  = length (List.filter malformed (splitlines (strip raw)))).
  { unfold _parse_headers. rewrite parse_fold_warnings. cbn [snd app].
    apply length_map. }
  split; [|split; [exact Hsize|split; [exact Hwarn|]]].
  - intros Hws. unfold _parse_headers. now rewrite strip_all_space.
  - rewrite Hwarn.
    pose proof (filter_disjoint_length well_formed malformed
                  (splitlines (strip raw)) well_formed_not_malformed). lia.
Qed.

End Headers2.

(** ** Loading a record and sending it again *)

Section RoundTrip.
Context `{PyFloat}.
Import Py.

Lemma lstrip_app_space (pre s : str) : all_space pre -> lstrip (pre ++ s) = lstrip s.
Proof.
  induction 1 as [|c pre Hc _ IH]; cbn; [reflexivity|]. now rewrite Hc.
Qed.

Lemma lstrip_nonspace (c : N) (s : str) : isspace c = false -> lstrip (c :: s) = c :: s.
Proof. intros Hc. cbn. now rewrite Hc. Qed.

Lemma rstrip_app_space (s post : str) : all_space post -> rstrip (s ++ post) = rstrip s.
Proof.
  intros Hp. unfold rstrip. rewrite rev_app_distr, lstrip_app_space; [reflexivity|].
  now apply all_space_rev.
Qed.

Lemma rstrip_snoc_nonspace (s : str) (d : N) :
  isspace d = false -> rstrip (s ++ [d]) = s ++ [d].
Proof.
  intros Hd. unfold rstrip. rewrite rev_app_distr. cbn [rev app].
  rewrite lstrip_nonspace by assumption.
  cbn [rev]. now rewrite rev_involutive.
Qed.

(** A string that ends in a non-space keeps everything before it. *)
Lemma rstrip_app_keep (a b : str) : rstrip b <> [] -> rstrip (a ++ b) = a ++ rstrip b.
Proof.
  intros Hb. unfold rstrip in *. rewrite rev_app_distr.
  destruct (lstrip_decomp (rev b)) as [pre [Heq Hpre]].
  rewrite Heq at 1. rewrite <- app_assoc, lstrip_app_space by assumption.
  destruct (lstrip (rev b)) as [|c u] eqn:E; [now destruct Hb|].
  pose proof (lstrip_head _ _ _ E) as Hc.
  rewrite <- app_comm_cons, lstrip_nonspace by assumption.
  rewrite app_comm_cons, rev_app_distr. now rewrite rev_involutive.
Qed.

Lemma trimmed_snoc (s : str) :
  trimmed s -> s = [] \/ exists u d, s = u ++ [d] /\ isspace d = false.
Proof.
  unfold trimmed. destruct s as [|c t]; [now left|].
  intros [_ (d & Hl & Hd)]. right. apply last_Some in Hl. destruct Hl as [u Hu].
  exists u, d. now split.
Qed.

Lemma strip_trimmed_id (pre s post : str) :
  trimmed s -> all_space pre -> all_space post -> strip (pre ++ s ++ post) = s.
Proof.
  intros Hs Hpre Hpost. unfold strip. rewrite lstrip_app_space by assumption.
  destruct s as [|c t].
  - cbn [app]. rewrite (lstrip_all_space post Hpost). reflexivity.
  - destruct Hs as [Hc (d & Hl & Hd)]. apply last_Some in Hl. destruct Hl as [u Hu].
    rewrite <- app_comm_cons, lstrip_nonspace by assumption.
    rewrite app_comm_cons, rstrip_app_space by assumption.
    rewrite Hu. now apply rstrip_snoc_nonspace.
Qed.

Lemma strip_of_trimmed (s : str) : trimmed s -> strip s = s.
Proof.
  intros Hs. rewrite <- (strip_trimmed_id [] s []) at 2; try constructor; [|assumption].
  cbn [app]. now rewrite app_nil_r.
Qed.

Lemma split1_app (sep : N) (k w : str) :
  contains sep k = false -> split1 sep (k ++ sep :: w) = (k, w).
Proof.
  induction k as [|c k IH]; cbn.
  - intros _. now rewrite N.eqb_refl.
  - rewrite orb_false_iff. intros [Hc Hk]. rewrite (N.eqb_sym c sep), Hc.
    now rewrite IH.
Qed.

Lemma contains_app (c : N) (a b : str) :
  contains c (a ++ b) = contains c a || contains c b.
Proof. unfold contains. apply existsb_app. Qed.

Lemma strip_nonblank (c : N) (s : str) :
  isspace c = false -> contains c s = true -> strip s <> [].
Proof.
  intros Hc Hin Hnil. destruct (strip_decomp s) as (pre & post & Heq & Hpre & Hpost).
  rewrite Hnil in Heq. cbn [app] in Heq. rewrite Heq, contains_app in Hin.
  unfold contains in Hin. apply orb_prop in Hin.
  assert (Hno : forall l, all_space l -> existsb (N.eqb c) l = true -> False).
  { intros l Hl Hex. apply existsb_exists in Hex. destruct Hex as (x & Hx & Hcx).
    apply N.eqb_eq in Hcx. subst x. unfold all_space in Hl.
    rewrite Forall_forall in Hl. apply list_elem_of_In in Hx.
    rewrite (Hl c Hx) in Hc. discriminate. }
  destruct Hin as [Hin|Hin]; eauto.
Qed.

(** A line made of a key, a colon, and text whose stripped form is the
    value is read back as that entry. *)
Lemma header_of_line (k w v : str) :
  trimmed k -> contains COLON k = false -> strip w = v ->
  well_formed (k ++ COLON :: w) = true /\ header_of (k ++ COLON :: w) = (k, v).
Proof.
  intros Hk Hc Hw. split.
  - unfold well_formed, blank.
    assert (Hcol : contains COLON (k ++ COLON :: w) = true).
    { rewrite contains_app. cbn. now rewrite orb_true_r. }
    rewrite Hcol, andb_true_r. apply negb_true_iff, bool_decide_eq_false_2.
    now apply (strip_nonblank COLON).
  - unfold header_of. rewrite split1_app by assumption. cbn [fst snd].
    now rewrite strip_of_trimmed, Hw.
Qed.

Lemma splitlines_from_app (l cur rest : str) :
  no_linebreak l ->
  splitlines_from cur (l ++ rest) = splitlines_from (rev l ++ cur) rest.
Proof.
  intros Hl. revert cur. induction Hl as [|c l Hc _ IH]; intros cur; [reflexivity|].
  cbn [app splitlines_from rev].
  assert (H13 : (c =? 13)%N = false).
  { destruct (N.eqb_spec c 13) as [->|]; [discriminate Hc | reflexivity]. }
  rewrite H13, Hc, IH. now rewrite <- app_assoc.
Qed.

Lemma splitlines_from_line (l rest : str) :
  no_linebreak l ->
  splitlines_from [] (l ++ LF :: rest) = l :: splitlines_from [] rest.
Proof.
  intros Hl. rewrite splitlines_from_app by assumption. rewrite app_nil_r.
  cbn. now rewrite rev_involutive.
Qed.

Lemma splitlines_from_last (l : str) :
  no_linebreak l -> l <> [] -> splitlines_from [] l = [l].
Proof.
  intros Hl Hne. rewrite <- (app_nil_r l) at 1.
  rewrite splitlines_from_app by assumption. rewrite app_nil_r. cbn.
  destruct (rev l) eqn:E.
  - apply (f_equal (@rev N)) in E. rewrite rev_involutive in E. now destruct Hne.
  - now rewrite <- E, rev_involutive.
Qed.

(** The lines of a text in which every line but the last ends in a line
    feed. *)
Lemma splitlines_lines (init : list str) (final : str) :
  Forall no_linebreak init -> no_linebreak final -> final <> [] ->
  splitlines (concat (map (fun l => l ++ [LF]) init) ++ final) = init ++ [final].
Proof.
  intros Hinit Hf Hne. unfold splitlines.
  induction Hinit as [|l init Hl _ IH]; cbn [map concat app].
  - now apply splitlines_from_last.
  - rewrite <- !app_assoc. cbn [app]. rewrite splitlines_from_line by assumption.
    now rewrite IH.
Qed.

Lemma join_snoc (init : list str) (final : str) :
  join [LF] (init ++ [final]) = concat (map (fun l => l ++ [LF]) init) ++ final.
Proof.
  induction init as [|l init IH]; [reflexivity|].
  cbn [app map concat]. rewrite <- app_assoc, <- IH.
  destruct init; cbn [app join]; now rewrite <- app_assoc.
Qed.

Lemma strip_space_cons (v : str) : trimmed v -> strip (SPACE :: v) = v.
Proof.
  intros Hv. replace (SPACE :: v) with ([SPACE] ++ v ++ []) by (now rewrite app_nil_r).
  apply strip_trimmed_id; [assumption | | constructor]. now repeat constructor.
Qed.

Lemma header_line_parts (k v : str) :
  header_line (k, v) = k ++ COLON :: SPACE :: v.
Proof. reflexivity. Qed.

Lemma no_linebreak_header_line (k v : str) :
  no_linebreak k -> no_linebreak v -> no_linebreak (header_line (k, v)).
Proof.
  intros Hk Hv. rewrite header_line_parts. apply Forall_app. split; [exact Hk|].
  repeat (constructor; [reflexivity|]). exact Hv.
Qed.

Lemma header_line_head (k v : str) :
  trimmed k -> exists c t, header_line (k, v) = c :: t /\ isspace c = false.
Proof.
  intros Hk. rewrite header_line_parts. destruct k as [|c k].
  - eexists _, _. split; reflexivity.
  - destruct Hk as [Hc _]. eexists _, _. split; [reflexivity | exact Hc].
Qed.

(** The last line of the text, after [strip] took the newline and the
    spaces at its end, still reads as its entry. *)
Lemma rstrip_header_line (k v : str) :
  trimmed k -> trimmed v -> contains COLON k = false ->
  no_linebreak k -> no_linebreak v ->
  rstrip (header_line (k, v) ++ [LF]) <> []
  /\ no_linebreak (rstrip (header_line (k, v) ++ [LF]))
  /\ well_formed (rstrip (header_line (k, v) ++ [LF])) = true
  /\ header_of (rstrip (header_line (k, v) ++ [LF])) = (k, v).
Proof.
  intros Hk Hv Hc Hlk Hlv.
  rewrite rstrip_app_space by (repeat constructor). rewrite header_line_parts.
  destruct (trimmed_snoc v Hv) as [->|(u & d & -> & Hd)].
  - change (k ++ [COLON; SPACE]) with (k ++ [COLON] ++ [SPACE]).
    rewrite app_assoc, rstrip_app_space by (repeat constructor).
    rewrite rstrip_snoc_nonspace by reflexivity.
    split; [now destruct k|]. split.
    { apply Forall_app. split; [exact Hlk | now repeat constructor]. }
    now apply header_of_line.
  - replace (k ++ COLON :: SPACE :: u ++ [d]) with ((k ++ COLON :: SPACE :: u) ++ [d])
      by (now rewrite <- app_assoc).
    rewrite rstrip_snoc_nonspace by assumption.
    rewrite <- app_assoc. cbn [app].
    split; [now destruct k|]. split.
    { apply Forall_app. split; [exact Hlk|]. now repeat (constructor; [reflexivity|]). }
    apply header_of_line; [assumption | assumption |].
    now apply strip_space_cons.
Qed.

Lemma parse_lines_as_entries (ls : list str) (items : list (str * str))
    (acc : gmap str str * list Dialog) :
  Forall2 (fun line kv => well_formed line = true /\ header_of line = kv) ls items ->
  fold_left parse_header_line ls acc
  = (fold_left (fun m kv => <[kv.1 := kv.2]> m) items acc.1, acc.2).
Proof.
  intros Hf. revert acc. induction Hf as [|line kv ls items [Hw Hh] _ IH]; intros acc.
  - now destruct acc.
  - cbn [fold_left]. rewrite IH, parse_header_line_cases, Hw, Hh. reflexivity.
Qed.

Lemma fold_insert_list_to_map (items : list (str * str)) :
  fold_left (fun (m : gmap str str) kv => <[kv.1 := kv.2]> m) items ∅
  = list_to_map (reverse items).
Proof.
  induction items as [|kv items IH] using rev_ind; [reflexivity|].
  rewrite fold_left_app, reverse_app. cbn [fold_left]. rewrite IH.
  destruct kv as [k v]. reflexivity.
Qed.

(** Parsing the text [_populate_form] writes gives the entries back. *)
Lemma parse_rendered (items : list (str * str)) :
  Forall entry_ok items ->
  _parse_headers (text_get (join [LF] (map header_line items)))
  = (list_to_map (reverse items), []).
Proof.
  intros Hok. rewrite <- fold_insert_list_to_map.
  destruct items as [|kv0 items0] using rev_ind; [reflexivity|]. clear IHitems0.
  apply Forall_app in Hok. destruct Hok as [Hinit Hlast].
  apply Forall_cons in Hlast. destruct Hlast as [(Hk & Hv & Hc & Hlk & Hlv) _].
  destruct kv0 as [k v]. cbn [fst snd] in *.
  rewrite map_app. cbn [map]. unfold text_get. rewrite join_snoc.
  set (P := concat (map (fun l => l ++ [LF]) (map header_line items0))).
  destruct (rstrip_header_line k v Hk Hv Hc Hlk Hlv) as (Hne & Hnl & Hw & Hh).
  assert (Hstrip : strip ((P ++ header_line (k, v)) ++ [LF])
                   = P ++ rstrip (header_line (k, v) ++ [LF])).
  { unfold strip.
    assert (Hhead : exists c t, (P ++ header_line (k, v)) ++ [LF] = c :: t
                                /\ isspace c = false).
    { subst P. destruct items0 as [|[k1 v1] items1].
      - destruct (header_line_head k v Hk) as (c & t & -> & Hs).
        eexists _, _. split; [reflexivity | exact Hs].
      - apply Forall_cons in Hinit. destruct Hinit as [(Hk1 & _) _].
        destruct (header_line_head k1 v1 Hk1) as (c & t & Heq & Hs).
        cbn [map concat]. rewrite Heq. eexists _, _. split; [reflexivity | exact Hs]. }
    destruct Hhead as (c & t & Heq & Hs).
    rewrite Heq, lstrip_nonspace, <- Heq by assumption.
    rewrite <- app_assoc. now apply rstrip_app_keep. }
  unfold _parse_headers. rewrite Hstrip. subst P. rewrite splitlines_lines.
  - rewrite (parse_lines_as_entries _ (items0 ++ [(k, v)])); [reflexivity|].
    apply Forall2_app; [|now repeat constructor].
    clear -Hinit. induction Hinit as [|[k1 v1] items1 (Hk1 & Hv1 & Hc1 & _) _ IH];
      cbn [map]; constructor; [|exact IH].
    rewrite header_line_parts. apply header_of_line; [assumption | assumption |].
    now apply strip_space_cons.
  - clear -Hinit. induction Hinit as [|[k1 v1] items1 (_ & _ & _ & Hl1 & Hl2) _ IH];
      cbn [map]; constructor; [|exact IH].
    now apply no_linebreak_header_line.
  - exact Hnl.
  - exact Hne.
Qed.

Lemma method_of_name_name (m : Method) : method_of_name (method_name m) = Some m.
Proof. destruct m; vm_compute; reflexivity. Qed.

Lemma list_get_row {A} (l : list A) (row : nat) :
  row < length l ->
  list_get (Z.of_nat (length l) - 1 - Z.of_nat row) l = l !! (length l - 1 - row).
Proof.
  intros Hrow. unfold list_get. rewrite bool_decide_eq_true_2 by lia.
  f_equal. lia.
Qed.

Lemma entries_ok (order : list (str * str)) (m : gmap str str) :
  headers_ok m -> order ≡ₚ map_to_list m -> Forall entry_ok order.
Proof.
  intros Hm Hp. apply Forall_forall. intros [k v] Hin.
  rewrite Hp in Hin.
  apply elem_of_map_to_list in Hin. exact (Hm k v Hin).
Qed.

Lemma list_to_map_order (order : list (str * str)) (m : gmap str str) :
  order ≡ₚ map_to_list m -> list_to_map (reverse order) = m.
Proof.
  intros Hp. rewrite <- (list_to_map_to_list m). apply list_to_map_proper.
  - rewrite reverse_Permutation, Hp. apply NoDup_fst_map_to_list.
  - now rewrite reverse_Permutation.
Qed.

Lemma populate_form_some (items : list (str * str)) (item : RequestHistoryItem)
    (m : Method) (self : App) :
  method item = method_name m ->
  _populate_form items item self
  = Some (with_form m (url item) (join [LF] (map header_line items)) (body item) self).
Proof. intros Hm. unfold _populate_form. now rewrite Hm, method_of_name_name. Qed.

(** X12.  Loading a record of a reachable state into the form and pressing
    Send submits the same request again: [_populate_form] succeeds, the
    submission is accepted without any dialog, and the record it creates
    has the method, URL, headers and body of the loaded one, with no
    outcome yet.  The order in which the dict yields its items does not
    matter. *)
Theorem loaded_record_is_resubmitted (order : gmap str str -> list (str * str))
    (self : App) (r : ref) (item : RequestHistoryItem) :
  reachable self ->
  heap self !! r = Some item ->
  order (headers item) ≡ₚ map_to_list (headers item) ->
  exists loaded,
    _populate_form (order (headers item)) item self = Some loaded
    /\ dialogs (_queue_request loaded) = dialogs self
    /\ heap (_queue_request loaded)
       = heap self ++ [ {| method := method item; url := url item;
                           headers := headers item; body := body item;
                           response_status := None; response_time := None;
                           response_preview := [] |} ]
    /\ history (_queue_request loaded) = history self ++ [length (heap self)]
    /\ request_queue (_queue_request loaded)
       = request_queue self ++ [length (heap self)].
Proof.
  intros Hreach Hr Hp.
  destruct (reachable_records_ok self Hreach r item Hr)
    as (Hu & Htu & Htb & [m Hm] & Hh & _).
  eexists. split; [exact (populate_form_some _ item m self Hm)|].
  set (loaded := with_form m (url item) _ (body item) self).
  assert (Hurl : strip (url_entry loaded) = url item) by (now apply strip_of_trimmed).
  assert (Hne : strip (url_entry loaded) <> []) by (now rewrite Hurl).
  destruct (queue_request_accepted loaded Hne) as (Hheap & Hhist & Hq & _ & Hd & _).
  assert (Hparse : _parse_headers (text_get (headers_text loaded)) = (headers item, [])).
  { subst loaded. fields. rewrite (parse_rendered _ (entries_ok _ _ Hh Hp)).
    now rewrite (list_to_map_order _ _ Hp). }
  rewrite Hparse in Hheap, Hd. cbn [fst snd] in Hheap, Hd. rewrite Hurl in Hheap.
  split; [now rewrite Hd, app_nil_r|]. split; [|split; [exact Hhist | exact Hq]].
  rewrite Hheap. subst loaded. fields. rewrite upper_method_name, <- Hm.
  replace (strip (text_get (body item))) with (body item); [reflexivity|].
  symmetry. unfold text_get.
  apply (strip_trimmed_id [] (body item) [LF]); [assumption | constructor |].
  now repeat constructor.
Qed.

(** X13.  In every reachable state, for a row that can be selected, the
    Load button and the listbox selection event do the same thing and do
    not fail: they put into the form the method, URL, headers and body of
    the record whose label stands in the selected row, and change nothing
    else; the state after it is the one an edit of the form gives, so it
    is reachable again. *)
Theorem load_fills_form_from_selected_row (order : gmap str str -> list (str * str))
    (self : App) (row : nat) (rest : list nat) :
  reachable self ->
  selectable (row :: rest) self = true ->
  exists r item m,
    history self !! (length (history self) - 1 - row) = Some r
    /\ heap self !! r = Some item
    /\ labels self !! row = Some (display_label item)
    /\ method item = method_name m
    /\ _load_selected_history order (row :: rest) self
       = Some (with_form m (url item)
                 (join [LF] (map header_line (order (headers item))))
                 (body item) self, None)
    /\ _load_history_item order (row :: rest) self
       = _load_selected_history order (row :: rest) self
    /\ reachable (with_form m (url item)
                    (join [LF] (map header_line (order (headers item))))
                    (body item) self).
Proof.
  intros Hreach Hsel.
  pose proof (reachable_listbox_inv self Hreach) as Hlb. unfold listbox_inv in Hlb.
  assert (Hrow : row < length (history self)).
  { cbn [selectable forallb] in Hsel. apply andb_prop in Hsel.
    destruct Hsel as [Hsel _]. apply Nat.ltb_lt in Hsel. lia. }
  destruct (lookup_lt_is_Some_2 (history self) (length (history self) - 1 - row))
    as [r Hr]; [lia|].
  assert (Hin : r ∈ history self) by (eapply list_elem_of_lookup_2; exact Hr).
  destruct (lookup_lt_is_Some_2 (heap self) r
              (reachable_history_allocated self r Hreach Hin)) as [item Hitem].
  destruct (reachable_records_ok self Hreach r item Hitem)
    as (_ & _ & _ & [m Hm] & _).
  exists r, item, m. split; [exact Hr|]. split; [exact Hitem|]. split.
  { unfold labels. rewrite map_lookup, reverse_lookup by assumption.
    replace (length (history self) - S row) with (length (history self) - 1 - row)
      by lia.
    rewrite Hr.
    change (Some (from_option display_label [] (heap self !! r))
            = Some (display_label item)).
    now rewrite Hitem. }
  split; [exact Hm|].
  assert (Hload : load_row order row self
                  = Some (with_form m (url item)
                            (join [LF] (map header_line (order (headers item))))
                            (body item) self, None)).
  { unfold load_row. rewrite list_get_row, Hr, Hitem by assumption.
    now rewrite (populate_form_some _ item m self Hm). }
  split; [exact Hload|]. split.
  - unfold _load_history_item, _load_selected_history.
    destruct (history self); [cbn [length] in Hrow; lia | reflexivity].
  - eapply reachable_step; [exact Hreach|].
    instantiate (1 := EditForm m (url item) _ (body item)). reflexivity.
Qed.

End RoundTrip.

(** ** The workers can always finish what was submitted *)

Section Progress.
Context `{PyFloat}.
Import Py.

Lemma reachable_run (events : list Event) (s s' : App) :
  reachable s -> run events s = Some s' -> reachable s'.
Proof.
  intros [ev0 Hrun0] Hrun. exists (ev0 ++ events). now rewrite run_app, Hrun0.
Qed.

Lemma test_progress (self : App) (t : nat) :
  threads self !! t = Some AtWhile ->
  request_queue self <> [] ->
  exists s1,
    step (WorkerTest t) self = Some s1
    /\ threads s1 !! t = Some AtGet
    /\ request_queue s1 = request_queue self
    /\ heap s1 = heap self /\ history s1 = history self
    /\ owned s1 ≡ₚ owned self.
Proof.
  intros Ht Hne. cbn [step]. unfold _worker_loop_test. rewrite Ht.
  destruct (request_queue self) as [|q rest] eqn:Eq; [now destruct Hne|].
  eexists. split; [reflexivity|]. fields.
  split; [apply list_lookup_insert_eq; eapply lookup_lt_Some; exact Ht|].
  split; [exact Eq|]. split; [reflexivity|]. split; [reflexivity|].
  unfold owned, in_flight. fields. rewrite Eq. apply Permutation_app_head.
  exact (in_flight_insert self t AtWhile AtGet Ht).
Qed.

Lemma get_progress (self : App) (t : nat) (q : ref) (rest : list ref) :
  threads self !! t = Some AtGet ->
  request_queue self = q :: rest ->
  exists s1,
    step (WorkerGet t) self = Some s1
    /\ threads s1 !! t = Some (InRequest q)
    /\ heap s1 = heap self /\ history s1 = history self
    /\ owned s1 ≡ₚ owned self.
Proof.
  intros Ht Hq. cbn [step]. unfold _worker_loop_get. rewrite Ht, Hq.
  eexists. split; [reflexivity|]. fields.
  split; [apply list_lookup_insert_eq; eapply lookup_lt_Some; exact Ht|].
  split; [reflexivity|]. split; [reflexivity|].
  unfold owned, in_flight. fields. rewrite Hq.
  pose proof (in_flight_insert self t AtGet (InRequest q) Ht) as Hperm.
  cbn [holding option_list app] in Hperm. rewrite Hperm.
  cbn [app]. now rewrite Permutation_middle.
Qed.

Lemma finish_progress (self : App) (t : nat) (r : ref) (outcome : Exchange * pyfloat) :
  reachable self ->
  threads self !! t = Some (InRequest r) ->
  exists item s1,
    heap self !! r = Some item
    /\ step (WorkerFinish t outcome.1 outcome.2) self = Some s1
    /\ heap s1 = <[r := after_exchange outcome item]> (heap self)
    /\ history s1 = history self
    /\ r :: owned s1 ≡ₚ owned self.
Proof.
  intros Hreach Ht. destruct (in_flight_pending self t r Hreach Ht) as [item [Hit _]].
  exists item. eexists. split; [exact Hit|]. split.
  { cbn [step]. exact (worker_loop_finish_some self t r item _ _ Ht Hit). }
  fields. split; [reflexivity|]. split; [reflexivity|].
  unfold owned, in_flight. fields.
  pose proof (in_flight_insert self t (InRequest r) AtWhile Ht) as Hperm.
  cbn [holding option_list app] in Hperm.
  etransitivity; [apply Permutation_middle|].
  apply Permutation_app_head. exact Hperm.
Qed.

(** From a state with a record that waits or is being sent, at most three
    worker steps complete one such record. *)
Lemma one_more (outcome : ref -> Exchange * pyfloat) (self : App) :
  reachable self ->
  owned self <> [] ->
  exists events s1 r item,
    forallb worker_event events = true
    /\ run events self = Some s1
    /\ heap self !! r = Some item
    /\ heap s1 = <[r := after_exchange (outcome r) item]> (heap self)
    /\ history s1 = history self
    /\ r :: owned s1 ≡ₚ owned self.
Proof.
  intros Hreach Hne.
  assert (Hfin : forall s t r,
            reachable s -> threads s !! t = Some (InRequest r) ->
            exists events s1 item,
              forallb worker_event events = true
              /\ run events s = Some s1
              /\ heap s !! r = Some item
              /\ heap s1 = <[r := after_exchange (outcome r) item]> (heap s)
              /\ history s1 = history s
              /\ r :: owned s1 ≡ₚ owned s).
  { intros s t r Hs Ht.
    destruct (finish_progress s t r (outcome r) Hs Ht)
      as (item & s1 & Hit & Hstep & Hh & Hhist & Hown).
    exists [WorkerFinish t (outcome r).1 (outcome r).2], s1, item.
    split; [reflexivity|]. split; [cbn [run]; now rewrite Hstep|].
    now repeat split. }
  assert (Hget : forall s t q rest,
            reachable s -> threads s !! t = Some AtGet ->
            request_queue s = q :: rest ->
            exists events s1 item,
              forallb worker_event events = true
              /\ run events s = Some s1
              /\ heap s !! q = Some item
              /\ heap s1 = <[q := after_exchange (outcome q) item]> (heap s)
              /\ history s1 = history s
              /\ q :: owned s1 ≡ₚ owned s).
  { intros s t q rest Hs Ht Hq.
    destruct (get_progress s t q rest Ht Hq) as (s1 & Hstep & Ht1 & Hh & Hhist & Hown).
    assert (Hs1 : reachable s1) by (eapply reachable_step; eassumption).
    destruct (Hfin s1 t q Hs1 Ht1) as (ev & s2 & item & Hev & Hrun & Hit & Hh2 & Hhist2 & Hown2).
    exists (WorkerGet t :: ev), s2, item.
    split; [exact Hev|]. split; [cbn [run]; now rewrite Hstep|].
    rewrite <- Hh. split; [exact Hit|]. split; [exact Hh2|].
    split; [congruence|]. now rewrite Hown2. }
  destruct (in_flight self) as [|r fl] eqn:Efl.
  - destruct (request_queue self) as [|q rest] eqn:Eq.
    { unfold owned in Hne. rewrite Eq, Efl in Hne. now destruct Hne. }
    destruct (reachable_served self Hreach) as (th & Hin & Halive);
      [now rewrite Eq|].
    apply list_elem_of_lookup in Hin. destruct Hin as [t Ht].
    destruct th as [| |r|]; [| | |discriminate].
    + destruct (test_progress self t Ht) as (s1 & Hstep & Ht1 & Hq1 & Hh & Hhist & Hown);
        [now rewrite Eq|].
      assert (Hs1 : reachable s1) by (eapply reachable_step; eassumption).
      rewrite Eq in Hq1.
      destruct (Hget s1 t q rest Hs1 Ht1 Hq1)
        as (ev & s2 & item & Hev & Hrun & Hit & Hh2 & Hhist2 & Hown2).
      exists (WorkerTest t :: ev), s2, q, item.
      split; [exact Hev|]. split; [cbn [run]; now rewrite Hstep|].
      rewrite <- Hh. split; [exact Hit|]. split; [exact Hh2|].
      split; [congruence|]. now rewrite Hown2.
    + destruct (Hget self t q rest Hreach Ht Eq) as (ev & s1 & item & Hrest).
      now exists ev, s1, q, item.
    + assert (Hr : r ∈ in_flight self).
      { apply list_elem_of_omap. exists (InRequest r). split; [|reflexivity].
        eapply list_elem_of_lookup_2. exact Ht. }
      rewrite Efl in Hr. now apply elem_of_nil in Hr.
  - assert (Hr : r ∈ in_flight self) by (rewrite Efl; now left).
    apply list_elem_of_omap in Hr. destruct Hr as (th & Hin & Hhold).
    destruct th as [| |r'|]; try discriminate. injection Hhold as ->.
    apply list_elem_of_lookup in Hin. destruct Hin as [t Ht].
    destruct (Hfin self t r Hreach Ht) as (ev & s1 & item & Hrest).
    now exists ev, s1, r, item.
Qed.

Lemma settle (outcome : ref -> Exchange * pyfloat) (n : nat) (self : App) :
  reachable self ->
  length (owned self) = n ->
  exists events self',
    forallb worker_event events = true
    /\ run events self = Some self'
    /\ owned self' = []
    /\ history self' = history self
    /\ length (heap self') = length (heap self)
    /\ forall r,
         heap self' !! r
         = if bool_decide (r ∈ owned self)
           then after_exchange (outcome r) <$> heap self !! r
           else heap self !! r.
Proof.
  revert self. induction n as [|n IH]; intros self Hreach Hlen.
  - exists [], self. apply nil_length_inv in Hlen.
    split; [reflexivity|]. split; [reflexivity|]. split; [exact Hlen|].
    split; [reflexivity|]. split; [reflexivity|]. intros r. rewrite Hlen.
    rewrite bool_decide_eq_false_2; [reflexivity | apply not_elem_of_nil].
  - destruct (one_more outcome self Hreach)
      as (ev1 & s1 & r0 & item & Hev1 & Hrun1 & Hit & Hh1 & Hhist1 & Hown1).
    { intros E. rewrite E in Hlen. discriminate. }
    assert (Hs1 : reachable s1) by (eapply reachable_run; eassumption).
    assert (Hlen1 : length (owned s1) = n).
    { apply Permutation_length in Hown1. cbn [length] in Hown1. lia. }
    destruct (IH s1 Hs1 Hlen1) as (ev2 & s2 & Hev2 & Hrun2 & Hown2 & Hhist2 & Hl2 & Hh2).
    exists (ev1 ++ ev2), s2.
    split; [rewrite forallb_app, Hev1, Hev2; reflexivity|].
    split; [now rewrite run_app, Hrun1|]. split; [exact Hown2|].
    split; [congruence|].
    split; [rewrite Hl2, Hh1; apply length_insert|].
    intros r. rewrite Hh2, Hh1.
    pose proof (reachable_dispatch_inv self Hreach) as [Hnd _].
    rewrite <- Hown1 in Hnd. apply NoDup_cons in Hnd. destruct Hnd as [Hnot _].
    destruct (decide (r = r0)) as [->|Hne].
    + rewrite bool_decide_eq_false_2 by assumption.
      rewrite bool_decide_eq_true_2 by (rewrite <- Hown1; now left).
      rewrite Hit. apply list_lookup_insert_eq. eapply lookup_lt_Some. exact Hit.
    + rewrite list_lookup_insert_ne by congruence.
      apply (f_equal (fun b : bool => if b then _ else _)).
      apply bool_decide_ext. rewrite <- Hown1. rewrite elem_of_cons. tauto.
Qed.


End Progress.

(** ** The statements on concrete runs *)

Section Concrete.
Import Py Millis Examples.

(** Against C2 as written: after [twins] the record at address 0 is not the
    last history entry (that is address 1), yet draining its pair updates
    the live panel, because the two records have equal fields. *)
Lemma poll_updates_panel_for_equal_twin :
  response_queue (state_after twins) = [(0, twin_result_a); (1, twin_result_b)]
  /\ last (history (state_after twins)) = Some 1
  /\ 0 <> 1
  /\ poll_body 0 twin_result_a
       (with_response_queue [(1, twin_result_b)] (state_after twins))
     = inl (_refresh_history_listbox
              (_display_response twin_result_a
                 (with_response_queue [(1, twin_result_b)] (state_after twins))))
  /\ status_var (state_after twins) = lit "Pending..."
  /\ res_status twin_result_a = lit "200 OK"
  /\ response_body_text (state_after twins) = []
  /\ res_body twin_result_a = lines [lit "a"; lit "b"].
Proof.
  split; [vm_compute; reflexivity|].
  split; [vm_compute; reflexivity|]. split; [discriminate|].
  split; [vm_compute; reflexivity|].
  split; [vm_compute; reflexivity|].
  split; [vm_compute; reflexivity|].
  split; vm_compute; reflexivity.
Qed.



Lemma second_submission_starts_second_worker_witness :
  strip (url_entry (state_after [form_ok])) <> []
  /\ request_queue (state_after [form_ok]) = []
  /\ threads (_queue_request (state_after [form_ok]))
     = threads (state_after [form_ok]) ++ [AtWhile].
Proof.
  assert (Hurl : strip (url_entry (state_after [form_ok])) <> [])
    by (vm_compute; discriminate).
  split; [exact Hurl|]. split; [reflexivity|].
  apply (proj1 second_submission_starts_second_worker _ Hurl). reflexivity.
Defined.

Lemma poll_body_updates_on_equal_fields_witness :
  last (history (state_after twins)) = Some 1
  /\ items_equal (state_after twins) 0 1 = true
  /\ poll_body 0 (_worker_loop_exchange (Returned text_two_lines) 120%Z fresh_item).2
       (state_after twins)
     = inl (_refresh_history_listbox
              (_display_response
                 (_worker_loop_exchange (Returned text_two_lines) 120%Z fresh_item).2
                 (state_after twins))).
Proof.
  assert (Hlast : last (history (state_after twins)) = Some 1)
    by (vm_compute; reflexivity).
  assert (Heq : items_equal (state_after twins) 0 1 = true)
    by (vm_compute; reflexivity).
  split; [exact Hlast|]. split; [exact Heq|].
  exact (proj1 (proj2 (poll_body_updates_on_equal_fields
                         (state_after twins) 0 1 _ Hlast)) Heq).
Defined.

Lemma submit_validation_witness :
  (url_entry init = []
   /\ request_queue (_queue_request init) = request_queue init)
  /\ (strip (url_entry (state_after [form_ok])) <> []
      /\ length (history (_queue_request (state_after [form_ok])))
         = S (length (history (state_after [form_ok])))).
Proof.
  split.
  - split; [reflexivity|].
    exact (proj1 (proj2 (proj2 (proj2 (proj1 (submit_validation init) eq_refl))))).
  - assert (Hurl : strip (url_entry (state_after [form_ok])) <> [])
      by (vm_compute; discriminate).
    split; [exact Hurl|].
    exact (proj1 (proj2 (submit_validation (state_after [form_ok])) Hurl)).
Defined.

Lemma parse_headers_spec_witness :
  lit "Y: 2" ∈ splitlines (strip (lines [lit "X-Test: 1"; lit "Bad-Line"; lit "Y: 2"]))
  /\ well_formed (lit "Y: 2") = true
  /\ is_Some ((_parse_headers (lines [lit "X-Test: 1"; lit "Bad-Line"; lit "Y: 2"])).1
              !! (header_of (lit "Y: 2")).1)
  /\ strip (url_entry (state_after [form_with_headers])) <> []
  /\ exists item,
       heap (_queue_request (state_after [form_with_headers])) = [item]
       /\ headers item = {[ lit "X-Test" := lit "1"; lit "Y" := lit "2" ]}.
Proof.
  assert (Hin : lit "Y: 2"
                ∈ splitlines (strip (lines [lit "X-Test: 1"; lit "Bad-Line"; lit "Y: 2"]))).
  { vm_compute. apply list_elem_of_In. simpl. auto. }
  assert (Hw : well_formed (lit "Y: 2") = true) by (vm_compute; reflexivity).
  assert (Hurl : strip (url_entry (state_after [form_with_headers])) <> [])
    by (vm_compute; discriminate).
  split; [exact Hin|]. split; [exact Hw|]. split; [|split; [exact Hurl|]].
  - exact (proj2 (proj2 (proj1 (proj2 (proj1 parse_headers_spec _)) _ Hin Hw))).
  - destruct (proj2 (proj2 parse_headers_spec) (state_after [form_with_headers])
                Hurl eq_refl) as (item & Hh & Hhd & _).
    exists item. split; [exact Hh | exact Hhd].
Defined.





Lemma poll_fails_on_empty_history_witness :
  history (state_after cleared_in_flight) = []
  /\ response_queue (state_after cleared_in_flight)
     = [(0, (_worker_loop_exchange (Raised (lit "timed out")) 60000%Z fresh_item).2)]
  /\ reachable (state_after cleared_in_flight)
  /\ (poll_queue (state_after cleared_in_flight)).2 = Some IndexError.
Proof.
  assert (Hh : history (state_after cleared_in_flight) = [])
    by (vm_compute; reflexivity).
  assert (Hq : response_queue (state_after cleared_in_flight)
               = [(0, (_worker_loop_exchange (Raised (lit "timed out")) 60000%Z fresh_item).2)])
    by (vm_compute; reflexivity).
  split; [exact Hh|]. split; [exact Hq|].
  split; [exists cleared_in_flight; vm_compute; reflexivity|].
  now rewrite (poll_fails_on_empty_history _ _ _ _ Hh Hq).
Defined.

Lemma submit_normalizes_witness :
  all_space (url_entry (with_form GET (lit "   ") [] [] init))
  /\ _queue_request (with_form GET (lit "   ") [] [] init)
     = with_dialogs [missing_url_error] (with_form GET (lit "   ") [] [] init)
  /\ strip (url_entry (state_after [form_with_headers])) <> []
  /\ (exists item,
        heap (_queue_request (state_after [form_with_headers])) = [item]
        /\ url item = lit "https://example.test/ok" /\ body item = lit "{}")
  /\ splitlines (strip (lines [lit "K: 1"; lit "K : 2"])) = [] ++ lit "K: 1" :: [lit "K : 2"]
  /\ (_parse_headers (lines [lit "K: 1"; lit "K : 2"])).1 !! lit "K" = Some (lit "2").
Proof.
  assert (Hws : all_space (url_entry (with_form GET (lit "   ") [] [] init)))
    by (repeat constructor).
  assert (Hurl : strip (url_entry (state_after [form_with_headers])) <> [])
    by (vm_compute; discriminate).
  assert (Hls : splitlines (strip (lines [lit "K: 1"; lit "K : 2"]))
                = [lit "K: 1"] ++ lit "K : 2" :: [])
    by (vm_compute; reflexivity).
  pose proof submit_normalizes as (Hreject & Hstore & _ & Hlast).
  split; [exact Hws|]. split; [exact (proj1 (Hreject _ Hws))|].
  split; [exact Hurl|]. split; [|split; [vm_compute; reflexivity|]].
  - destruct (Hstore _ Hurl) as (item & Hh & _ & Hu & Hb & _).
    exists item. split; [exact Hh|]. rewrite Hu, Hb. split; vm_compute; reflexivity.
  - assert (Hw : well_formed (lit "K : 2") = true) by (vm_compute; reflexivity).
    refine (Hlast _ _ _ _ Hls Hw _).
    intros l Hl. now apply elem_of_nil in Hl.
Defined.

End Concrete.

(** ** The further statements on concrete runs *)

Section ConcreteRuns.
Import Py Millis Examples.

Lemma history_in_submission_order_witness :
  reachable (state_after twins)
  /\ history (state_after twins) = [0; 1]
  /\ history (state_after twins)
     `sublist_of` seq 0 (length (heap (state_after twins)))
  /\ NoDup (history (state_after twins)).
Proof.
  assert (Hreach : reachable (state_after twins))
    by (exists twins; vm_compute; reflexivity).
  destruct (history_in_submission_order _ Hreach) as (Hsub & Hnd & _).
  split; [exact Hreach|]. split; [vm_compute; reflexivity|].
  split; [exact Hsub | exact Hnd].
Defined.

Lemma dispatch_queue_is_fifo_witness :
  reachable (state_after two_submitted)
  /\ threads (state_after two_submitted) !! 0 = Some AtWhile
  /\ request_queue (state_after two_submitted) = [0; 1]
  /\ request_queue (state_after two_submitted)
     = seq (length (heap (state_after two_submitted))
            - length (request_queue (state_after two_submitted)))
           (length (request_queue (state_after two_submitted))).
Proof.
  assert (Hreach : reachable (state_after two_submitted))
    by (exists two_submitted; vm_compute; reflexivity).
  split; [exact Hreach|]. split; [vm_compute; reflexivity|].
  split; [vm_compute; reflexivity|].
  exact (proj1 (dispatch_queue_is_fifo _ Hreach)).
Defined.


Lemma outcome_published_once_witness :
  reachable (state_after twins)
  /\ response_queue (state_after twins) = [(0, twin_result_a); (1, twin_result_b)]
  /\ NoDup (response_queue (state_after twins)).*1
  /\ completed (state_after twins) 0 = true
  /\ (0 ∉ request_queue (state_after twins) ++ in_flight (state_after twins)).
Proof.
  assert (Hreach : reachable (state_after twins))
    by (exists twins; vm_compute; reflexivity).
  assert (Hq : response_queue (state_after twins)
               = [(0, twin_result_a); (1, twin_result_b)])
    by (vm_compute; reflexivity).
  destruct (outcome_published_once _ Hreach) as (Hnd & Hall).
  split; [exact Hreach|]. split; [exact Hq|]. split; [exact Hnd|].
  apply (Hall 0 twin_result_a). rewrite Hq. now left.
Defined.


Lemma poll_queue_drains_witness :
  history (state_after twins) <> []
  /\ response_queue (state_after twins) <> []
  /\ (poll_queue (state_after twins)).2 = None
  /\ response_queue (poll_queue (state_after twins)).1 = []
  /\ history_listbox (poll_queue (state_after twins)).1 = labels (state_after twins)
  /\ labels (state_after twins)
     = [lit "GET https://example.test/ok (200, 120 ms)";
        lit "GET https://example.test/ok (200, 120 ms)"].
Proof.
  assert (Hh : history (state_after twins) <> []) by (vm_compute; discriminate).
  assert (Hq : response_queue (state_after twins) <> []) by (vm_compute; discriminate).
  destruct (poll_queue_drains (state_after twins)) as (_ & Hd & _).
  destruct (Hd Hh) as (Hnone & Hempty & Hlb).
  split; [exact Hh|]. split; [exact Hq|]. split; [exact Hnone|].
  split; [exact Hempty|]. split; [exact (Hlb Hq)|]. vm_compute. reflexivity.
Defined.

Lemma poll_queue_panel_witness :
  last (history (state_after twins)) = Some 1
  /\ last_shown (state_after twins) 1 (response_queue (state_after twins))
     = Some twin_result_b
  /\ shows (poll_queue (state_after twins)).1 twin_result_b.
Proof.
  assert (Hl : last (history (state_after twins)) = Some 1)
    by (vm_compute; reflexivity).
  assert (Hs : last_shown (state_after twins) 1 (response_queue (state_after twins))
               = Some twin_result_b) by (vm_compute; reflexivity).
  pose proof (poll_queue_panel (state_after twins) 1 Hl) as Hp.
  rewrite Hs in Hp. exact (conj Hl (conj Hs Hp)).
Defined.

Lemma delete_removes_selected_row_witness :
  reachable (state_after two_submitted)
  /\ selectable [0] (state_after two_submitted) = true
  /\ history (state_after two_submitted) = [0; 1]
  /\ history (_delete_selected_history [0] (state_after two_submitted)).1 = [0]
  /\ history (_delete_selected_history [0] (state_after two_submitted)).1
     = delete (length (history (state_after two_submitted)) - 1 - 0)
         (history (state_after two_submitted))
  /\ history_listbox (_delete_selected_history [0] (state_after two_submitted)).1
     = delete 0 (labels (state_after two_submitted)).
Proof.
  assert (Hreach : reachable (state_after two_submitted))
    by (exists two_submitted; vm_compute; reflexivity).
  assert (Hsel : selectable [0] (state_after two_submitted) = true)
    by (vm_compute; reflexivity).
  destruct (delete_removes_selected_row _ 0 [] Hreach Hsel)
    as (_ & r & _ & _ & _ & Hhist & _ & Hlb & _).
  split; [exact Hreach|]. split; [exact Hsel|]. split; [vm_compute; reflexivity|].
  split; [vm_compute; reflexivity|]. split; [exact Hhist | exact Hlb].
Defined.

Lemma parsed_headers_well_formed_witness :
  (_parse_headers (lines [lit " X-Test :  1 "; lit "Bad-Line"; lit "Y: 2"])).1
    !! lit "X-Test" = Some (lit "1")
  /\ trimmed (lit "X-Test") /\ trimmed (lit "1")
  /\ contains COLON (lit "X-Test") = false
  /\ no_linebreak (lit "X-Test") /\ no_linebreak (lit "1").
Proof.
  assert (Hl : (_parse_headers
                  (lines [lit " X-Test :  1 "; lit "Bad-Line"; lit "Y: 2"])).1
                 !! lit "X-Test" = Some (lit "1")) by (vm_compute; reflexivity).
  exact (conj Hl (parsed_headers_well_formed _ _ _ Hl)).
Defined.

Lemma parse_headers_counts_witness :
  all_space (lit "  ")
  /\ _parse_headers (lit "  ") = (∅, [])
  /\ size (_parse_headers (lines [lit "A: 1"; lit "Bad-Line"; lit "A: 2"])).1 = 1
  /\ size (_parse_headers (lines [lit "A: 1"; lit "Bad-Line"; lit "A: 2"])).1
     + length (_parse_headers (lines [lit "A: 1"; lit "Bad-Line"; lit "A: 2"])).2
     <= length (splitlines (strip (lines [lit "A: 1"; lit "Bad-Line"; lit "A: 2"]))).
Proof.
  assert (Hws : all_space (lit "  ")) by (repeat constructor).
  split; [exact Hws|]. split; [exact (proj1 (parse_headers_counts _) Hws)|].
  split; [vm_compute; reflexivity|].
  exact (proj2 (proj2 (proj2 (parse_headers_counts _)))).
Defined.


Lemma loaded_record_is_resubmitted_witness :
  reachable (state_after sent_with_headers)
  /\ heap (state_after sent_with_headers) !! 0 = Some item_with_headers
  /\ map_to_list (headers item_with_headers)
     ≡ₚ map_to_list (headers item_with_headers)
  /\ exists loaded,
       _populate_form (map_to_list (headers item_with_headers)) item_with_headers
         (state_after sent_with_headers) = Some loaded
       /\ dialogs (_queue_request loaded) = dialogs (state_after sent_with_headers)
       /\ heap (_queue_request loaded) = [item_with_headers; item_with_headers].
Proof.
  assert (Hreach : reachable (state_after sent_with_headers))
    by (exists sent_with_headers; vm_compute; reflexivity).
  assert (Hit : heap (state_after sent_with_headers) !! 0 = Some item_with_headers)
    by (vm_compute; reflexivity).
  assert (Hp : map_to_list (headers item_with_headers)
               ≡ₚ map_to_list (headers item_with_headers)) by reflexivity.
  assert (Hheap : heap (state_after sent_with_headers) = [item_with_headers])
    by (vm_compute; reflexivity).
  destruct (loaded_record_is_resubmitted map_to_list _ 0 _ Hreach Hit Hp)
    as (loaded & Hload & Hd & Hh & _).
  split; [exact Hreach|]. split; [exact Hit|]. split; [exact Hp|].
  exists loaded. split; [exact Hload|]. split; [exact Hd|].
  rewrite Hh, Hheap. reflexivity.
Defined.

Lemma load_fills_form_from_selected_row_witness :
  reachable (state_after sent_with_headers)
  /\ selectable [0] (state_after sent_with_headers) = true
  /\ exists m,
       method item_with_headers = method_name m
       /\ _load_selected_history map_to_list [0] (state_after sent_with_headers)
          = Some (with_form m (url item_with_headers)
                    (join [LF] (map header_line
                                  (map_to_list (headers item_with_headers))))
                    (body item_with_headers) (state_after sent_with_headers), None)
       /\ _load_history_item map_to_list [0] (state_after sent_with_headers)
          = _load_selected_history map_to_list [0] (state_after sent_with_headers).
Proof.
  assert (Hreach : reachable (state_after sent_with_headers))
    by (exists sent_with_headers; vm_compute; reflexivity).
  assert (Hsel : selectable [0] (state_after sent_with_headers) = true)
    by (vm_compute; reflexivity).
  assert (Hr0 : history (state_after sent_with_headers)
                  !! (length (history (state_after sent_with_headers)) - 1 - 0)
                = Some 0) by (vm_compute; reflexivity).
  assert (Hit : heap (state_after sent_with_headers) !! 0 = Some item_with_headers)
    by (vm_compute; reflexivity).
  destruct (load_fills_form_from_selected_row map_to_list _ 0 [] Hreach Hsel)
    as (r & item & m & Hr & Hitem & _ & Hm & Hload & Hsame & _).
  rewrite Hr0 in Hr. injection Hr as <-.
  rewrite Hit in Hitem. injection Hitem as <-.
  split; [exact Hreach|]. split; [exact Hsel|].
  exists m. split; [exact Hm|]. split; [exact Hload | exact Hsame].
Defined.

Lemma one_thread_per_submission_witness :
  reachable (state_after overlap_both_sent)
  /\ length (threads (state_after overlap_both_sent)) = 2
  /\ length (heap (state_after overlap_both_sent)) = 2
  /\ length (threads (state_after overlap_both_sent))
     <= length (heap (state_after overlap_both_sent))
  /\ live_workers (state_after overlap_both_sent)
     <= length (heap (state_after overlap_both_sent)).
Proof.
  assert (Hreach : reachable (state_after overlap_both_sent))
    by (exists overlap_both_sent; vm_compute; reflexivity).
  split; [exact Hreach|]. split; [vm_compute; reflexivity|].
  split; [vm_compute; reflexivity|].
  exact (one_thread_per_submission _ Hreach).
Defined.


End ConcreteRuns.
